(** * The Vault provider's auth reconcilers, embedded in Rocq

    The development follows two resources of the provider:
    - [vault_gcp_auth_backend] configuration: the credential codecs
      [ValidateGCPCredentials] and [NormalizeGCPCredentials], the path builder
      [gcpAuthBackendConfigPath] and the four operations
      [gcpAuthConfigureWrite], [gcpAuthConfigureRead],
      [gcpAuthConfigureDelete], [gcpAuthConfigureExists];
    - [vault_auth_backend]: [authBackendWrite], [authBackendDelete],
      [authBackendRead] and the two functions of its [path] field.

    Go strings are [string] (byte strings), Go's [error] is its message
    ([option string], [None] for [nil]), [map[string]interface{}] is a
    [gmap string value], and the mutation of [*schema.ResourceData] and of the
    remote store is explicit state passing. *)

From Stdlib Require Import ZArith Ascii String List.
From stdpp Require Import base option list strings gmap fin_maps sorting pretty.

Local Open Scope string_scope.
Local Open Scope Z_scope.

(** ** Go's [strings] package, as far as the provider uses it *)

Module strings.

(** [strings.TrimLeft s c] for a cutset of the single byte [c]. *)
Fixpoint TrimLeft (s : string) (c : ascii) : string :=
  match s with
  | String a s' => if Ascii.eqb a c then TrimLeft s' c else s
  | EmptyString => EmptyString
  end.

(** [strings.TrimRight s c] for a cutset of the single byte [c]: the bytes
    equal to [c] at the end of [s] are dropped. *)
Fixpoint TrimRight (s : string) (c : ascii) : string :=
  match s with
  | EmptyString => EmptyString
  | String a s' =>
      match TrimRight s' c with
      | EmptyString => if Ascii.eqb a c then EmptyString else String a EmptyString
      | t => String a t
      end
  end.

(** [strings.Trim s cutset] with a one-byte cutset: Go trims the right end,
    then the left end. *)
Definition Trim (s : string) (c : ascii) : string :=
  TrimLeft (TrimRight s c) c.

(** [strings.HasPrefix]. *)
Fixpoint HasPrefix (s p : string) : bool :=
  match p, s with
  | EmptyString, _ => true
  | String b p', String a s' => Ascii.eqb a b && HasPrefix s' p'
  | String _ _, EmptyString => false
  end.

(** [strings.HasSuffix]. *)
Definition HasSuffix (s p : string) : bool :=
  HasPrefix (String.rev s) (String.rev p).

(** [strings.Contains]. *)
Fixpoint Contains (s sub : string) : bool :=
  HasPrefix s sub ||
  match s with
  | EmptyString => false
  | String _ s' => Contains s' sub
  end.

(** The first and the last byte of a string, when it has one. *)
Definition first_byte (s : string) : option ascii :=
  match s with
  | EmptyString => None
  | String a _ => Some a
  end.

Fixpoint last_byte (s : string) : option ascii :=
  match s with
  | EmptyString => None
  | String a EmptyString => Some a
  | String _ s' => last_byte s'
  end.

End strings.

(** The separator of remote paths. *)
Definition slash : ascii := "/"%char.

(** ** Go's [fmt] verbs used by the provider *)

(** [%q] is Go's [strconv.Quote]; it is a function of Go's library and stays
    an interface here. *)
Class Quoter := quote : string → string.

Inductive arg : Type :=
  | AStr (s : string)
  | AInt (n : Z).

(** What one verb prints for one operand. *)
Definition format_verb `{Quoter} (verb : ascii) (a : arg) : string :=
  match a with
  | AStr s =>
      if Ascii.eqb verb "q"%char then quote s
      else if Ascii.eqb verb "s"%char then s
      else "%!" ++ String verb "(string=" ++ s ++ ")"
  | AInt n =>
      if Ascii.eqb verb "d"%char then pretty n
      else "%!" ++ String verb "(int=" ++ pretty n ++ ")"
  end.

(** [fmt.Sprintf format args...] for [%s], [%q], [%d] and [%%]. *)
Fixpoint Sprintf `{Quoter} (format : string) (args : list arg) : string :=
  match format with
  | EmptyString => EmptyString
  | String "%"%char (String verb rest) =>
      if Ascii.eqb verb "%"%char then String "%"%char (Sprintf rest args)
      else
        match args with
        | a :: args' => format_verb verb a ++ Sprintf rest args'
        | [] => "%!" ++ String verb "(MISSING)" ++ Sprintf rest []
        end
  | String c rest => String c (Sprintf rest args)
  end.

(** [fmt.Errorf]: the error whose message is the formatted text. *)
Definition Errorf `{Quoter} (format : string) (args : list arg) : string :=
  Sprintf format args.

(** ** The GCP auth configuration path *)

(** [gcpAuthBackendConfigPath]. *)
Definition gcpAuthBackendConfigPath (path : string) : string :=
  "auth/" ++ strings.Trim path slash ++ "/config".

(** ** Values, schemas and resource data *)

(** The dynamic values ([interface{}]) that travel between the provider, the
    framework and the remote store. A [*schema.Set] of strings is carried as
    the list its [List()] returns. *)
Inductive value : Type :=
  | VString (s : string)
  | VInt (n : Z)
  | VBool (b : bool)
  | VList (l : list string).

Inductive ValueType : Type :=
  | TypeString
  | TypeInt
  | TypeBool
  | TypeSet.

(** [schema.Schema], with the settings the two resources use. *)
Record Schema : Type := mkSchema {
  Type_ : ValueType;
  Required : bool;
  Optional : bool;
  Computed : bool;
  ForceNew : bool;
  Sensitive : bool;
  Default : option value
}.

(** The zero value of a field's type: what [d.Get] returns for a field that
    was never set and has no default. *)
Definition zero_value (t : ValueType) : value :=
  match t with
  | TypeString => VString ""
  | TypeInt => VInt 0
  | TypeBool => VBool false
  | TypeSet => VList []
  end.

Definition is_zero (v : value) : bool :=
  match v with
  | VString s => bool_decide (s = "")
  | VInt n => bool_decide (n = 0)
  | VBool b => negb b
  | VList l => bool_decide (l = [])
  end.

(** The type assertions to string, bool and int, and the [List()] of a value
    asserted to be a schema set. The framework hands out values of the schema's
    type; on any other value the model answers the zero value. *)
Definition as_string (v : value) : string :=
  match v with VString s => s | _ => "" end.

Definition as_bool (v : value) : bool :=
  match v with VBool b => b | _ => false end.

Definition as_int (v : value) : Z :=
  match v with VInt n => n | _ => 0 end.

Definition as_list (v : value) : list string :=
  match v with VList l => l | _ => [] end.

(** A resource's schema: field names with their declarations, in the order of
    the source. *)
Definition SchemaMap : Type := list (string * Schema).

Fixpoint schema_lookup (m : SchemaMap) (k : string) : option Schema :=
  match m with
  | [] => None
  | (k', s) :: m' => if String.eqb k' k then Some s else schema_lookup m' k
  end.

(** The framework's ResourceData: the identity and the attributes that are set. *)
Record ResourceData : Type := mkResourceData {
  Id : string;
  attrs : gmap string value
}.

(** [d.SetId]. *)
Definition SetId (id : string) (d : ResourceData) : ResourceData :=
  {| Id := id; attrs := attrs d |}.

(** [d.Get]: the value that is set, else the schema's default, else the zero
    value of the field's type. *)
Definition Get (m : SchemaMap) (k : string) (d : ResourceData) : value :=
  match attrs d !! k with
  | Some v => v
  | None =>
      match schema_lookup m k with
      | Some s => default (zero_value (Type_ s)) (Default s)
      | None => VString ""
      end
  end.

(** [d.GetOk]: the value, and whether it is set to something other than the
    zero value. *)
Definition GetOk (m : SchemaMap) (k : string) (d : ResourceData) : value * bool :=
  let v := Get m k d in (v, negb (is_zero v)).

(** The framework's field writer behind [d.Set]: it converts the offered
    value to the field's type, or refuses it with an error. It belongs to the
    plugin SDK and stays an interface. *)
Class FieldWriter := write_field : ValueType → value → string + value.

(** [d.Set]: on success the attribute holds the written value, on failure the
    data is as before and the error is returned. *)
Definition d_Set `{FieldWriter} (m : SchemaMap) (k : string) (v : value)
    (d : ResourceData) : option string * ResourceData :=
  match schema_lookup m k with
  | None => (Some ("Invalid address to set: " ++ k), d)
  | Some s =>
      match write_field (Type_ s) v with
      | inl e => (Some e, d)
      | inr v' => (None, {| Id := Id d; attrs := <[k := v']> (attrs d) |})
      end
  end.

(** A value has the type of a field when it is of the matching kind. *)
Definition has_type (t : ValueType) (v : value) : bool :=
  match t, v with
  | TypeString, VString _ => true
  | TypeInt, VInt _ => true
  | TypeBool, VBool _ => true
  | TypeSet, VList _ => true
  | _, _ => false
  end.

(** The law of the field writer that [authBackendRead] relies on when it
    discards the result of [d.Set]: a string, an integer or a boolean offered
    to a field of that very type is stored as it is. *)
Definition stores_typed_primitives (W : FieldWriter) : Prop :=
  ∀ t v, t ≠ TypeSet → has_type t v = true → write_field t v = inr v.

(** ** The credential codecs of the GCP auth configuration *)

(** Go's [encoding/json], as the codecs use it: [Unmarshal] decodes a text
    into a [map[string]interface{}] or fails with an error, [Marshal] encodes
    such a map or fails. The package is Go's and stays an interface. *)
Class JSONCodec := {
  DataMap : Type;
  Unmarshal : string → string + DataMap;
  Marshal : DataMap → string + string
}.

(** The law of [encoding/json] behind the idempotence of the normalizer: the
    text [Marshal] writes for a decoded map decodes to that map again. *)
Definition marshal_roundtrip (J : JSONCodec) : Prop :=
  ∀ x m s, Unmarshal x = inr m → Marshal m = inr s → Unmarshal s = inr m.

(** [ValidateGCPCredentials]: the warnings and the errors for the field [k]. *)
Definition ValidateGCPCredentials `{JSONCodec} (configI : value) (k : string)
    : list string * list string :=
  let credentials := as_string configI in
  match Unmarshal credentials with
  | inl err => ([], [err])
  | inr _ => ([], [])
  end.

(** [NormalizeGCPCredentials]. The two log lines have no effect on the
    result. *)
Definition NormalizeGCPCredentials `{JSONCodec} (configI : value) : string :=
  let credentials := as_string configI in
  match Unmarshal credentials with
  | inl err => ""
  | inr dataMap =>
      match Marshal dataMap with
      | inl err => credentials
      | inr ret => ret
      end
  end.

(** ** The remote store *)

(** [api.Secret]: the body of a read. *)
Record Secret : Type := mkSecret {
  Data : gmap string value
}.

(** [api.AuthConfigInput], the fields [authBackendWrite] fills. *)
Record AuthConfigInput : Type := mkAuthConfigInput {
  DefaultLeaseTTL : string;
  MaxLeaseTTL : string;
  AuditNonHMACRequestKeys : list string;
  AuditNonHMACResponseKeys : list string;
  ListingVisibility : string;
  PassthroughRequestHeaders : list string
}.

(** [api.EnableAuthOptions], the fields [authBackendWrite] fills. *)
Record EnableAuthOptions : Type := mkEnableAuthOptions {
  opt_Type : string;
  opt_Description : string;
  opt_Config : AuthConfigInput;
  opt_Local : bool
}.

(** [api.AuthConfigOutput] and [api.AuthMount], the fields [authBackendRead]
    reads. *)
Record AuthConfigOutput : Type := mkAuthConfigOutput {
  out_DefaultLeaseTTL : Z;
  out_MaxLeaseTTL : Z;
  out_ListingVisibility : string
}.

Record AuthMount : Type := mkAuthMount {
  mount_Type : string;
  mount_Description : string;
  mount_Accessor : string;
  mount_Config : AuthConfigOutput;
  mount_Local : bool
}.

(** [*api.Client] over a remote store in state [R]: every call answers and
    leaves the store in a new state. [Logical_Read] answers an error, no
    secret ([nil]) or a secret. *)
Record Client (R : Type) : Type := mkClient {
  Logical_Write : string → gmap string value → R → option string * R;
  Logical_Read : string → R → (string + option Secret) * R;
  Sys_EnableAuthWithOptions : string → EnableAuthOptions → R → option string * R;
  Sys_DisableAuth : string → R → option string * R;
  Sys_ListAuth : R → (string + gmap string AuthMount) * R
}.

Arguments Logical_Write {R} _ _ _ _.
Arguments Logical_Read {R} _ _ _.
Arguments Sys_EnableAuthWithOptions {R} _ _ _ _.
Arguments Sys_DisableAuth {R} _ _ _.
Arguments Sys_ListAuth {R} _ _.

(** ** The GCP auth configuration resource *)

(** The schema of [gcpAuthConfigResource]; the columns are [Required],
    [Optional], [Computed], [ForceNew], [Sensitive] and [Default]. *)
Definition gcpAuthConfigSchema : SchemaMap :=
  [ ("path", mkSchema TypeString false true false true false (Some (VString "gcp")));
    ("credentials", mkSchema TypeString false true false false true None);
    ("iam_alias", mkSchema TypeString false true true false false None);
    ("gce_alias", mkSchema TypeString false true true false false None);
    ("iam_metadata", mkSchema TypeSet false true true false false None);
    ("default_iam_metadata", mkSchema TypeBool false true false false false (Some (VBool true)));
    ("gce_metadata", mkSchema TypeSet false true true false false None);
    ("default_gce_metadata", mkSchema TypeBool false true false false false (Some (VBool true)));
    ("client_id", mkSchema TypeString false false true false false None);
    ("private_key_id", mkSchema TypeString false false true false false None);
    ("project_id", mkSchema TypeString false false true false false None);
    ("client_email", mkSchema TypeString false false true false false None) ].

(** The [StateFunc] of the [path] field. *)
Definition gcpAuthConfigPathState (v : value) : string :=
  strings.Trim (as_string v) slash.

(** [if v, ok := d.GetOk(k); ok { data[k] = v.(string) }]. *)
Definition copy_if_set (k : string) (d : ResourceData)
    (data : gmap string value) : gmap string value :=
  match GetOk gcpAuthConfigSchema k d with
  | (v, true) => <[k := VString (as_string v)]> data
  | (_, false) => data
  end.

(** The metadata entry: the sentinel when the default flag is set, the
    elements of the set otherwise. *)
Definition copy_metadata (k flag : string) (d : ResourceData)
    (data : gmap string value) : gmap string value :=
  let metadata := as_list (Get gcpAuthConfigSchema k d) in
  let defaultMetadata := as_bool (Get gcpAuthConfigSchema flag d) in
  if defaultMetadata then <[k := VString "default"]> data
  else <[k := VList metadata]> data.

(** The [data] that [gcpAuthConfigureWrite] assembles before its remote
    call. *)
Definition gcpAuthConfigureData (d : ResourceData) : gmap string value :=
  let data : gmap string value := ∅ in
  let data := copy_if_set "credentials" d data in
  let data := copy_if_set "iam_alias" d data in
  let data := copy_if_set "gce_alias" d data in
  let data := copy_metadata "iam_metadata" "default_iam_metadata" d data in
  let data := copy_metadata "gce_metadata" "default_gce_metadata" d data in
  data.

(** The fields [gcpAuthConfigureRead] copies from a response. *)
Definition gcpAuthConfigReadKeys : list string :=
  [ "credentials"; "iam_alias"; "gce_alias"; "iam_metadata"; "gce_metadata";
    "private_key_id"; "client_id"; "project_id"; "client_email" ].

(** The loop of [gcpAuthConfigureRead] over the keys: a key the response has
    is set, a key it omits is skipped, the first failing [d.Set] ends the
    loop with its error. *)
Fixpoint gcpAuthConfigureReadKeys `{Quoter} `{FieldWriter} (path : string)
    (keys : list string) (data : gmap string value) (d : ResourceData)
    : option string * ResourceData :=
  match keys with
  | [] => (None, d)
  | k :: keys' =>
      match data !! k with
      | Some v =>
          match d_Set gcpAuthConfigSchema k v d with
          | (Some err, d') =>
              (Some (Errorf "error setting %s for GCP Auth config %q: %q"
                       [AStr k; AStr path; AStr err]), d')
          | (None, d') => gcpAuthConfigureReadKeys path keys' data d'
          end
      | None => gcpAuthConfigureReadKeys path keys' data d
      end
  end.

(** [gcpAuthConfigureRead]. *)
Definition gcpAuthConfigureRead {R} `{Quoter} `{FieldWriter}
    (d : ResourceData) (meta : Client R) (r : R)
    : option string * ResourceData * R :=
  let client := meta in
  let path := gcpAuthBackendConfigPath (Id d) in
  match Logical_Read client path r with
  | (inl err, r) =>
      (Some (Errorf "error reading GCP Auth config %q: %s" [AStr path; AStr err]), d, r)
  | (inr None, r) => (None, SetId "" d, r)
  | (inr (Some resp), r) =>
      let '(err, d) := gcpAuthConfigureReadKeys path gcpAuthConfigReadKeys (Data resp) d in
      (err, d, r)
  end.

(** [gcpAuthConfigureWrite]. *)
Definition gcpAuthConfigureWrite {R} `{Quoter} `{FieldWriter}
    (d : ResourceData) (meta : Client R) (r : R)
    : option string * ResourceData * R :=
  let client := meta in
  let id := as_string (Get gcpAuthConfigSchema "path" d) in
  let d := SetId id d in
  let path := gcpAuthBackendConfigPath (Id d) in
  let data := gcpAuthConfigureData d in
  match Logical_Write client path data r with
  | (Some err, r) =>
      (Some (Errorf "error writing GCP Auth config %q: %s" [AStr path; AStr err]),
       SetId "" d, r)
  | (None, r) => gcpAuthConfigureRead d meta r
  end.

(** [gcpAuthConfigureDelete]: the configuration is reset by writing an empty
    payload. *)
Definition gcpAuthConfigureDelete {R} `{Quoter}
    (d : ResourceData) (meta : Client R) (r : R) : option string * R :=
  let client := meta in
  let path := gcpAuthBackendConfigPath (Id d) in
  let data : gmap string value := ∅ in
  match Logical_Write client path data r with
  | (Some err, r) =>
      (Some (Errorf "error resetting GCP Auth config %q: %q" [AStr path; AStr err]), r)
  | (None, r) => (None, r)
  end.

(** [gcpAuthConfigureExists]. *)
Definition gcpAuthConfigureExists {R} `{Quoter}
    (d : ResourceData) (meta : Client R) (r : R) : bool * option string * R :=
  let client := meta in
  let path := gcpAuthBackendConfigPath (Id d) in
  match Logical_Read client path r with
  | (inl err, r) =>
      (true,
       Some (Errorf "error checking for existence of GCP Auth config %q: %s"
               [AStr path; AStr err]), r)
  | (inr resp, r) => (bool_decide (resp ≠ None), None, r)
  end.

(** ** The auth backend resource *)

(** The schema of [authBackendResource]; the columns are [Required],
    [Optional], [Computed], [ForceNew], [Sensitive] and [Default]. *)
Definition authBackendSchema : SchemaMap :=
  [ ("type", mkSchema TypeString true false false true false None);
    ("path", mkSchema TypeString false true true true false None);
    ("description", mkSchema TypeString false true false false false None);
    ("default_lease_ttl_seconds", mkSchema TypeInt false true true false false None);
    ("max_lease_ttl_seconds", mkSchema TypeInt false true true false false None);
    ("audit_non_hmac_request_keys", mkSchema TypeSet false true true false false None);
    ("audit_non_hmac_response_keys", mkSchema TypeSet false true true false false None);
    ("listing_visibility", mkSchema TypeString false true false false false None);
    ("passthrough_request_headers", mkSchema TypeSet false true true false false None);
    ("allowed_response_headers", mkSchema TypeSet false true true false false None);
    ("local", mkSchema TypeBool false true false false false None);
    ("seal_wrap", mkSchema TypeBool false true false false false None);
    ("accessor", mkSchema TypeString false false true false false None) ].

(** The [ValidateFunc] of the [path] field: the warnings and the errors. *)
Definition authBackendPathValidate (v : value) (k : string)
    : list string * list string :=
  let value := as_string v in
  if strings.HasSuffix value "/" then ([], ["cannot write to a path ending in '/'"])
  else ([], []).

(** The [DiffSuppressFunc] of the [path] field. *)
Definition authBackendPathDiffSuppress (k old new : string) (d : ResourceData) : bool :=
  bool_decide (old ++ "/" = new) || bool_decide (new ++ "/" = old).

(** Modelled from the spec: [util.ToStringArray] is a helper of the repository
    whose file is not among the sources; the spec's field codec layer names it
    the string-array conversion, which turns the elements of a set, already
    strings here, into an array of strings. *)
Definition ToStringArray (l : list string) : list string := l.

(** The options [authBackendWrite] assembles before its remote call. *)
Definition authBackendOptions `{Quoter} (d : ResourceData) : EnableAuthOptions :=
  let mountType := as_string (Get authBackendSchema "type" d) in
  {| opt_Type := mountType;
     opt_Description := as_string (Get authBackendSchema "description" d);
     opt_Config :=
       {| DefaultLeaseTTL :=
            Sprintf "%ds" [AInt (as_int (Get authBackendSchema "default_lease_ttl_seconds" d))];
          MaxLeaseTTL :=
            Sprintf "%ds" [AInt (as_int (Get authBackendSchema "max_lease_ttl_seconds" d))];
          AuditNonHMACRequestKeys :=
            ToStringArray (as_list (Get authBackendSchema "audit_non_hmac_request_keys" d));
          AuditNonHMACResponseKeys :=
            ToStringArray (as_list (Get authBackendSchema "audit_non_hmac_response_keys" d));
          ListingVisibility := as_string (Get authBackendSchema "listing_visibility" d);
          PassthroughRequestHeaders :=
            ToStringArray (as_list (Get authBackendSchema "passthrough_request_headers" d)) |};
     opt_Local := as_bool (Get authBackendSchema "local" d) |}.

(** The mount path [authBackendWrite] writes to: the [path] field, or the
    type when the path is empty. *)
Definition authBackendMountPath (d : ResourceData) : string :=
  let mountType := as_string (Get authBackendSchema "type" d) in
  let path := as_string (Get authBackendSchema "path" d) in
  if bool_decide (path = "") then mountType else path.

(** The body of the loop of [authBackendRead] for the entry that matches:
    eight calls of [d.Set], their results discarded. *)
Definition authBackendReadEntry `{FieldWriter} (path : string) (auth : AuthMount)
    (d : ResourceData) : ResourceData :=
  let d := (d_Set authBackendSchema "type" (VString (mount_Type auth)) d).2 in
  let d := (d_Set authBackendSchema "path" (VString path) d).2 in
  let d := (d_Set authBackendSchema "description" (VString (mount_Description auth)) d).2 in
  let d := (d_Set authBackendSchema "default_lease_ttl_seconds"
              (VInt (out_DefaultLeaseTTL (mount_Config auth))) d).2 in
  let d := (d_Set authBackendSchema "max_lease_ttl_seconds"
              (VInt (out_MaxLeaseTTL (mount_Config auth))) d).2 in
  let d := (d_Set authBackendSchema "listing_visibility"
              (VString (out_ListingVisibility (mount_Config auth))) d).2 in
  let d := (d_Set authBackendSchema "local" (VBool (mount_Local auth)) d).2 in
  let d := (d_Set authBackendSchema "accessor" (VString (mount_Accessor auth)) d).2 in
  d.

(** The loop of [authBackendRead] over the listing, in the order the map is
    ranged over: the data after the first matching entry, or [None] when the
    loop falls out. *)
Fixpoint authBackendReadScan `{FieldWriter} (targetPath : string)
    (auths : list (string * AuthMount)) (d : ResourceData) : option ResourceData :=
  match auths with
  | [] => None
  | (path, auth) :: auths' =>
      if bool_decide (path = targetPath) then Some (authBackendReadEntry path auth d)
      else authBackendReadScan targetPath auths' d
  end.

(** [authBackendRead]. *)
Definition authBackendRead {R} `{Quoter} `{FieldWriter}
    (d : ResourceData) (meta : Client R) (r : R)
    : option string * ResourceData * R :=
  let client := meta in
  let targetPath := Id d ++ "/" in
  match Sys_ListAuth client r with
  | (inl err, r) => (Some (Errorf "error reading from Vault: %s" [AStr err]), d, r)
  | (inr auths, r) =>
      match authBackendReadScan targetPath (map_to_list auths) d with
      | Some d' => (None, d', r)
      | None => (None, SetId "" d, r)
      end
  end.

(** [authBackendWrite]. *)
Definition authBackendWrite {R} `{Quoter} `{FieldWriter}
    (d : ResourceData) (meta : Client R) (r : R)
    : option string * ResourceData * R :=
  let client := meta in
  let options := authBackendOptions d in
  let path := authBackendMountPath d in
  match Sys_EnableAuthWithOptions client path options r with
  | (Some err, r) => (Some (Errorf "error writing to Vault: %s" [AStr err]), d, r)
  | (None, r) =>
      let d := SetId path d in
      authBackendRead d meta r
  end.

(** [authBackendDelete]. *)
Definition authBackendDelete {R} `{Quoter}
    (d : ResourceData) (meta : Client R) (r : R) : option string * R :=
  let client := meta in
  let path := Id d in
  match Sys_DisableAuth client path r with
  | (Some err, r) => (Some (Errorf "error disabling auth from Vault: %s" [AStr err]), r)
  | (None, r) => (None, r)
  end.

(** ** Test doubles: a quoter, a field writer, a JSON fragment and a store *)

(** The double quote, byte 34. *)
Definition dquote : ascii := "034"%char.

(** The backslash, byte 92. *)
Definition backslash : ascii := "092"%char.

(** A text between double quotes. *)
Definition quoted (s : string) : string :=
  String dquote (s ++ String dquote EmptyString).

(** [strconv.Quote] on printable ASCII: the text between double quotes, a
    double quote or a backslash inside it escaped by a backslash. *)
Fixpoint escape_ascii (s : string) : string :=
  match s with
  | EmptyString => EmptyString
  | String c s' =>
      if Ascii.eqb c dquote || Ascii.eqb c backslash
      then String backslash (String c (escape_ascii s'))
      else String c (escape_ascii s')
  end.

Definition quote_ascii : Quoter := λ s, quoted (escape_ascii s).

(** A field writer that stores a value of the field's kind as it is and
    refuses any other. *)
Definition kind_writer : FieldWriter := λ t v,
  if has_type t v then inr v else inl "value of the wrong type".

Module minijson.

(** A fragment of JSON: one flat object whose keys and values are strings of
    plain bytes, the printable ASCII bytes that [encoding/json] neither
    escapes nor treats as syntax. On a text of the fragment the decoder
    answers as Go's does (the last of two equal keys wins), and the encoder
    writes as Go's does: members in the order of their keys, no blanks. *)
Definition plain (c : ascii) : bool :=
  let n := nat_of_ascii c in
  (Nat.leb 32 n && Nat.leb n 126)
  && negb (Ascii.eqb c dquote) && negb (Ascii.eqb c backslash)
  && negb (Ascii.eqb c "<"%char) && negb (Ascii.eqb c ">"%char)
  && negb (Ascii.eqb c "&"%char).

Fixpoint all_plain (s : string) : bool :=
  match s with
  | EmptyString => true
  | String c s' => plain c && all_plain s'
  end.

(** The blanks JSON allows between tokens. *)
Definition blank (c : ascii) : bool :=
  Ascii.eqb c " "%char || Ascii.eqb c "009"%char
  || Ascii.eqb c "010"%char || Ascii.eqb c "013"%char.

(** The states of the decoder, with the members read so far. *)
Inductive pstate : Type :=
  | PStart
  | PFirst (m : gmap string string)
  | PKey (m : gmap string string) (k : string)
  | PColon (m : gmap string string) (k : string)
  | PValueStart (m : gmap string string) (k : string)
  | PValue (m : gmap string string) (k v : string)
  | PNext (m : gmap string string)
  | PKeyStart (m : gmap string string)
  | PEnd (m : gmap string string)
  | PError (msg : string).

Definition snoc (s : string) (c : ascii) : string := s ++ String c EmptyString.

Definition step (st : pstate) (c : ascii) : pstate :=
  match st with
  | PStart =>
      if blank c then PStart
      else if Ascii.eqb c "{"%char then PFirst ∅
      else PError "invalid character looking for beginning of value"
  | PFirst m =>
      if blank c then PFirst m
      else if Ascii.eqb c dquote then PKey m ""
      else if Ascii.eqb c "}"%char then PEnd m
      else PError "invalid character looking for beginning of object key string"
  | PKey m k =>
      if Ascii.eqb c dquote then PColon m k
      else if plain c then PKey m (snoc k c)
      else PError "character outside the fragment in object key"
  | PColon m k =>
      if blank c then PColon m k
      else if Ascii.eqb c ":"%char then PValueStart m k
      else PError "invalid character after object key"
  | PValueStart m k =>
      if blank c then PValueStart m k
      else if Ascii.eqb c dquote then PValue m k ""
      else PError "value outside the fragment"
  | PValue m k v =>
      if Ascii.eqb c dquote then PNext (<[k := v]> m)
      else if plain c then PValue m k (snoc v c)
      else PError "character outside the fragment in string literal"
  | PNext m =>
      if blank c then PNext m
      else if Ascii.eqb c ","%char then PKeyStart m
      else if Ascii.eqb c "}"%char then PEnd m
      else PError "invalid character after object key:value pair"
  | PKeyStart m =>
      if blank c then PKeyStart m
      else if Ascii.eqb c dquote then PKey m ""
      else PError "invalid character looking for beginning of object key string"
  | PEnd m =>
      if blank c then PEnd m
      else PError "invalid character after top-level value"
  | PError msg => PError msg
  end.

Fixpoint run (st : pstate) (s : string) : pstate :=
  match s with
  | EmptyString => st
  | String c s' => run (step st c) s'
  end.

Definition decode (s : string) : string + gmap string string :=
  match run PStart s with
  | PEnd m => inr m
  | PError msg => inl msg
  | _ => inl "unexpected end of JSON input"
  end.

Definition member (p : string * string) : string :=
  quoted p.1 ++ ":" ++ quoted p.2.

Fixpoint more_members (l : list (string * string)) : string :=
  match l with
  | [] => EmptyString
  | p :: l' => "," ++ member p ++ more_members l'
  end.

Definition members (l : list (string * string)) : string :=
  match l with
  | [] => EmptyString
  | p :: l' => member p ++ more_members l'
  end.

Definition by_key (p q : string * string) : Prop := String.le p.1 q.1.

Definition sorted_members (m : gmap string string) : list (string * string) :=
  merge_sort by_key (map_to_list m).

Definition all_plain_members (l : list (string * string)) : bool :=
  forallb (λ p, all_plain p.1 && all_plain p.2) l.

Definition encode (m : gmap string string) : string + string :=
  let l := sorted_members m in
  if all_plain_members l then inr ("{" ++ members l ++ "}")
  else inl "string outside the fragment".

Definition codec : JSONCodec :=
  {| DataMap := gmap string string; Unmarshal := decode; Marshal := encode |}.

End minijson.

Module fake.

(** An in-memory stand-in for the remote store: configuration objects by
    path, auth mounts by path with the trailing separator, a seal that makes
    every call fail, and the log of the calls received. *)
Inductive Request : Type :=
  | ReqWrite (path : string) (data : gmap string value)
  | ReqRead (path : string)
  | ReqEnableAuth (path : string) (options : EnableAuthOptions)
  | ReqDisableAuth (path : string)
  | ReqListAuth.

Record Store : Type := mkStore {
  sealed : bool;
  objects : gmap string (gmap string value);
  mounts : gmap string AuthMount;
  requests : list Request
}.

Definition sealed_error : string := "Vault is sealed".

Definition log (q : Request) (st : Store) : Store :=
  {| sealed := sealed st; objects := objects st; mounts := mounts st;
     requests := (requests st ++ [q])%list |}.

(** The seconds of a duration written as decimal digits and a unit. *)
Fixpoint seconds_from (acc : Z) (s : string) : Z :=
  match s with
  | EmptyString => acc
  | String c s' =>
      match Ascii.is_nat c with
      | Some n => seconds_from (10 * acc + Z.of_nat n) s'
      | None => acc
      end
  end.

Definition mount_of (path : string) (options : EnableAuthOptions) : AuthMount :=
  {| mount_Type := opt_Type options;
     mount_Description := opt_Description options;
     mount_Accessor := "auth_" ++ path;
     mount_Config :=
       {| out_DefaultLeaseTTL := seconds_from 0 (DefaultLeaseTTL (opt_Config options));
          out_MaxLeaseTTL := seconds_from 0 (MaxLeaseTTL (opt_Config options));
          out_ListingVisibility := ListingVisibility (opt_Config options) |};
     mount_Local := opt_Local options |}.

Definition write (path : string) (data : gmap string value) (st : Store)
    : option string * Store :=
  let st := log (ReqWrite path data) st in
  if sealed st then (Some sealed_error, st)
  else (None, {| sealed := sealed st; objects := <[path := data]> (objects st);
                 mounts := mounts st; requests := requests st |}).

Definition read (path : string) (st : Store) : (string + option Secret) * Store :=
  let st := log (ReqRead path) st in
  if sealed st then (inl sealed_error, st)
  else (inr (mkSecret <$> objects st !! path), st).

Definition enable_auth (path : string) (options : EnableAuthOptions) (st : Store)
    : option string * Store :=
  let st := log (ReqEnableAuth path options) st in
  if sealed st then (Some sealed_error, st)
  else
    match mounts st !! (path ++ "/") with
    | Some _ => (Some "path is already in use", st)
    | None =>
        (None, {| sealed := sealed st; objects := objects st;
                  mounts := <[path ++ "/" := mount_of path options]> (mounts st);
                  requests := requests st |})
    end.

Definition disable_auth (path : string) (st : Store) : option string * Store :=
  let st := log (ReqDisableAuth path) st in
  if sealed st then (Some sealed_error, st)
  else (None, {| sealed := sealed st; objects := objects st;
                 mounts := delete (path ++ "/") (mounts st);
                 requests := requests st |}).

Definition list_auth (st : Store) : (string + gmap string AuthMount) * Store :=
  let st := log ReqListAuth st in
  if sealed st then (inl sealed_error, st) else (inr (mounts st), st).

Definition client : Client Store :=
  {| Logical_Write := write;
     Logical_Read := read;
     Sys_EnableAuthWithOptions := enable_auth;
     Sys_DisableAuth := disable_auth;
     Sys_ListAuth := list_auth |}.

(** An empty store, unsealed or sealed. *)
Definition empty : Store :=
  {| sealed := false; objects := ∅; mounts := ∅; requests := [] |}.

Definition empty_sealed : Store :=
  {| sealed := true; objects := ∅; mounts := ∅; requests := [] |}.

End fake.

Module flaky.

(** A store that answers a number of calls and then no more: while calls are
    left, a write succeeds, a read finds nothing and the listing is empty;
    after that every call fails. The state is the number of calls left. *)
Definition refused : string := "connection refused".

Definition answer {A} (ok : A) (failed : string → A) (n : nat) : A * nat :=
  match n with
  | O => (failed refused, O)
  | S n' => (ok, n')
  end.

Definition client : Client nat :=
  {| Logical_Write := λ _ _, answer None Some;
     Logical_Read := λ _, answer (inr None) inl;
     Sys_EnableAuthWithOptions := λ _ _, answer None Some;
     Sys_DisableAuth := λ _, answer None Some;
     Sys_ListAuth := answer (inr ∅) inl |}.

End flaky.

Module gojson.

(** The JSON fragment of [minijson] together with the text null, treated as
    [encoding/json] treats it: decoding null into a map reports no error and
    leaves the nil map, and the nil map is encoded as null. The decoded value
    is [None] for the nil map. *)
Fixpoint skip_blanks (s : string) : string :=
  match s with
  | EmptyString => EmptyString
  | String c s' => if minijson.blank c then skip_blanks s' else s
  end.

Fixpoint all_blank (s : string) : bool :=
  match s with
  | EmptyString => true
  | String c s' => minijson.blank c && all_blank s'
  end.

(** The text is null, with blanks around it at most. *)
Definition is_null (s : string) : bool :=
  match skip_blanks s with
  | String "n" (String "u" (String "l" (String "l" rest))) => all_blank rest
  | _ => false
  end.

(** A text can only be a JSON object when the first byte after its leading
    blanks is the opening brace. *)
Definition opens_object (s : string) : bool :=
  match skip_blanks s with
  | String c _ => Ascii.eqb c "{"%char
  | EmptyString => false
  end.

Definition decode (s : string) : string + option (gmap string string) :=
  if is_null s then inr None
  else
    match minijson.decode s with
    | inl e => inl e
    | inr m => inr (Some m)
    end.

Definition encode (m : option (gmap string string)) : string + string :=
  match m with
  | None => inr "null"
  | Some m' => minijson.encode m'
  end.

Definition codec : JSONCodec :=
  {| DataMap := option (gmap string string); Unmarshal := decode; Marshal := encode |}.

End gojson.

(** ** The contracts the specification states for every reconciler *)

(** An error message names a path when it contains the path, as it is or as
    [%q] writes it. *)
Definition names_path `{Quoter} (msg path : string) : bool :=
  strings.Contains msg path || strings.Contains msg (quote path).

(** The remote write of [gcpAuthConfigureWrite]: its path and its answer. *)
Definition gcpAuthConfigureWriteCall {R} (d : ResourceData) (meta : Client R) (r : R)
    : string * (option string * R) :=
  let d := SetId (as_string (Get gcpAuthConfigSchema "path" d)) d in
  let path := gcpAuthBackendConfigPath (Id d) in
  (path, Logical_Write meta path (gcpAuthConfigureData d) r).

(** The remote write of [authBackendWrite]: its path and its answer. *)
Definition authBackendWriteCall {R} `{Quoter} (d : ResourceData) (meta : Client R) (r : R)
    : string * (option string * R) :=
  let path := authBackendMountPath d in
  (path, Sys_EnableAuthWithOptions meta path (authBackendOptions d) r).

(** The failed-write contract of a Write operation [write] whose remote call
    is [call]: when the call fails, the operation returns an error that names
    the remote path and leaves the identity empty. *)
Definition failed_write_contract {R} `{Quoter}
    (write : ResourceData → Client R → R → option string * ResourceData * R)
    (call : ResourceData → Client R → R → string * (option string * R)) : Prop :=
  ∀ d meta r path cause r',
    call d meta r = (path, (Some cause, r')) →
    ∃ msg d', write d meta r = (Some msg, d', r')
              ∧ names_path msg path = true ∧ Id d' = "".

(** The failed-read contract of a Read operation [read] that addresses [path]
    and whose remote call is [call]: when the call fails, the operation
    returns an error that names the path and contains the cause, and the
    local data is as before. *)
Definition failed_read_contract {R A} `{Quoter}
    (read : ResourceData → Client R → R → option string * ResourceData * R)
    (path : ResourceData → string)
    (call : ResourceData → Client R → R → (string + A) * R) : Prop :=
  ∀ d meta r cause r',
    call d meta r = (inl cause, r') →
    ∃ msg, read d meta r = (Some msg, d, r')
           ∧ names_path msg (path d) = true
           ∧ strings.Contains msg cause = true.


(** The law of [encoding/json] that the empty text does not decode. *)
Definition empty_undecodable (J : JSONCodec) : Prop :=
  ∀ m, Unmarshal "" ≠ inr m.

(** The contract that every text that is no JSON object is normalized to the
    empty string, for a codec: it asks the empty string already for the
    texts that do not open with a brace, which are no JSON objects. *)
Definition normalizes_non_objects_to_empty (J : JSONCodec) : Prop :=
  ∀ x, gojson.opens_object x = false → NormalizeGCPCredentials (VString x) = "".


(** The fields [authBackendWrite] reads, each with the struct field it is
    copied to and with what is sent for it when it is not set. *)
Definition authBackendWritten : list (string * (string * value)) :=
  [ ("type", ("Type", VString ""));
    ("description", ("Description", VString ""));
    ("default_lease_ttl_seconds", ("Config.DefaultLeaseTTL", VString "0s"));
    ("max_lease_ttl_seconds", ("Config.MaxLeaseTTL", VString "0s"));
    ("audit_non_hmac_request_keys", ("Config.AuditNonHMACRequestKeys", VList []));
    ("audit_non_hmac_response_keys", ("Config.AuditNonHMACResponseKeys", VList []));
    ("listing_visibility", ("Config.ListingVisibility", VString ""));
    ("passthrough_request_headers", ("Config.PassthroughRequestHeaders", VList []));
    ("local", ("Local", VBool false)) ].





(** The fields [authBackendRead] sets from the matching entry. *)
Definition authBackendReadKeys : list string :=
  [ "type"; "path"; "description"; "default_lease_ttl_seconds";
    "max_lease_ttl_seconds"; "listing_visibility"; "local"; "accessor" ].

(** The fields [gcpAuthConfigureWrite] reads to assemble its payload. *)
Definition gcpAuthConfigWriteKeys : list string :=
  [ "credentials"; "iam_alias"; "gce_alias"; "iam_metadata";
    "default_iam_metadata"; "gce_metadata"; "default_gce_metadata" ].

(** The entries [gcpAuthConfigureWrite] can put in its payload. *)
Definition gcpAuthConfigPayloadKeys : list string :=
  [ "credentials"; "iam_alias"; "gce_alias"; "iam_metadata"; "gce_metadata" ].

(** ** Sample states *)

(** An auth backend of type approle with a default lease of an hour, not yet
    created: no identity, no path, no description. *)
Definition approle_state : ResourceData :=
  {| Id := "";
     attrs := <["type" := VString "approle"]>
              (<["default_lease_ttl_seconds" := VInt 3600]> ∅) |}.

(** The same backend once created. *)
Definition approle_created : ResourceData :=
  {| Id := "approle"; attrs := attrs approle_state |}.

(** A GCP auth configuration at the mount gcp with its own IAM metadata. *)
Definition gcp_state : ResourceData :=
  {| Id := "";
     attrs := <["path" := VString "gcp"]>
              (<["iam_metadata" := VList ["foo=bar"]]>
              (<["default_iam_metadata" := VBool false]> ∅)) |}.

(** The same configuration once written. *)
Definition gcp_written : ResourceData :=
  {| Id := "gcp"; attrs := attrs gcp_state |}.

(** A store that holds one auth mount, at approle. *)
Definition store_with_approle : fake.Store :=
  {| fake.sealed := false; fake.objects := ∅;
     fake.mounts :=
       {[ "approle/" :=
            {| mount_Type := "approle"; mount_Description := "";
               mount_Accessor := "auth_approle";
               mount_Config :=
                 {| out_DefaultLeaseTTL := 3600; out_MaxLeaseTTL := 0;
                    out_ListingVisibility := "" |};
               mount_Local := false |} ]};
     fake.requests := [] |}.

(** A credentials text with blanks and members out of order, and a text that
    is no JSON. *)
Definition loose_credentials : string :=
  "{ " ++ quoted "project_id" ++ " : " ++ quoted "p1" ++ ", "
  ++ quoted "client_id" ++ ":" ++ quoted "42" ++ " }".

Definition not_json : string := "{not json".

(** Membership of a given element in a given list. *)
Ltac elem_of_list :=
  simpl; repeat first [apply list_elem_of_here | apply list_elem_of_further].

(** ** Strings *)

Lemma append_cons (a : ascii) (s t : string) : String a s ++ t = String a (s ++ t).
Proof. reflexivity. Qed.

Lemma append_empty_l (s : string) : "" ++ s = s.
Proof. reflexivity. Qed.

Lemma append_empty_r (s : string) : s ++ "" = s.
Proof. induction s as [|a s IH]; [done | by rewrite append_cons, IH]. Qed.

Lemma append_assoc (s t u : string) : (s ++ t) ++ u = s ++ t ++ u.
Proof. induction s as [|a s IH]; [done | by rewrite !append_cons, IH]. Qed.

Lemma HasPrefix_app (p t : string) : strings.HasPrefix (p ++ t) p = true.
Proof.
  induction p as [|a p IH]; [by destruct t |].
  rewrite append_cons. simpl. by rewrite Ascii.eqb_refl, IH.
Qed.

Lemma HasPrefix_refl (s : string) : strings.HasPrefix s s = true.
Proof. pose proof (HasPrefix_app s "") as Hp. by rewrite append_empty_r in Hp. Qed.

Lemma Contains_prefix (s sub : string) :
  strings.HasPrefix s sub = true → strings.Contains s sub = true.
Proof. intros Hp. destruct s; simpl in *; by rewrite Hp. Qed.

Lemma Contains_app_r (s t sub : string) :
  strings.Contains t sub = true → strings.Contains (s ++ t) sub = true.
Proof.
  intros Ht. induction s as [|a s IH]; [done |].
  rewrite append_cons. simpl. rewrite IH. apply orb_true_r.
Qed.

Lemma Contains_middle (s sub t : string) :
  strings.Contains (s ++ sub ++ t) sub = true.
Proof. apply Contains_app_r, Contains_prefix, HasPrefix_app. Qed.

Lemma Contains_end (s sub : string) : strings.Contains (s ++ sub) sub = true.
Proof. apply Contains_app_r, Contains_prefix, HasPrefix_refl. Qed.

Lemma TrimRight_app_cut (s : string) (c : ascii) :
  strings.TrimRight (s ++ String c "") c = strings.TrimRight s c.
Proof.
  induction s as [|a s IH].
  - simpl. by rewrite Ascii.eqb_refl.
  - rewrite append_cons. simpl. by rewrite IH.
Qed.

Lemma last_byte_TrimRight (s : string) (c : ascii) :
  strings.last_byte (strings.TrimRight s c) ≠ Some c.
Proof.
  induction s as [|a s IH]; simpl; [done |].
  destruct (strings.TrimRight s c) as [|b t] eqn:Ht.
  - destruct (Ascii.eqb a c) eqn:Hac; simpl; [done |].
    apply Ascii.eqb_neq in Hac. congruence.
  - exact IH.
Qed.

Lemma first_byte_TrimLeft (s : string) (c : ascii) :
  strings.first_byte (strings.TrimLeft s c) ≠ Some c.
Proof.
  induction s as [|a s IH]; simpl; [done |].
  destruct (Ascii.eqb a c) eqn:Hac; [exact IH |].
  simpl. apply Ascii.eqb_neq in Hac. congruence.
Qed.

Lemma last_byte_TrimLeft (s : string) (c : ascii) :
  strings.last_byte s ≠ Some c →
  strings.last_byte (strings.TrimLeft s c) ≠ Some c.
Proof.
  induction s as [|a s IH]; simpl; [done |].
  destruct (Ascii.eqb a c) eqn:Hac; [| done].
  destruct s as [|b s]; [done |]. exact IH.
Qed.

Lemma Trim_app_cut (s : string) (c : ascii) :
  strings.Trim (s ++ String c "") c = strings.Trim s c.
Proof. unfold strings.Trim. by rewrite TrimRight_app_cut. Qed.

(** ** The path builder *)

(** C7. The path builder does not see a trailing separator: the path built
    from [p] followed by a separator is the path built from [p]; and the
    built path is "auth/", the trimmed [p] and "/config", where the trimmed
    segment neither starts nor ends with a separator. *)
Theorem gcpAuthBackendConfigPath_trailing_separator (p : string) :
  gcpAuthBackendConfigPath (p ++ "/") = gcpAuthBackendConfigPath p
  ∧ gcpAuthBackendConfigPath p = "auth/" ++ strings.Trim p slash ++ "/config"
  ∧ strings.first_byte (strings.Trim p slash) ≠ Some slash
  ∧ strings.last_byte (strings.Trim p slash) ≠ Some slash.
Proof.
  split; [| split; [| split]].
  - unfold gcpAuthBackendConfigPath.
    change (p ++ "/") with (p ++ String slash ""). by rewrite Trim_app_cut.
  - reflexivity.
  - apply first_byte_TrimLeft.
  - apply last_byte_TrimLeft, last_byte_TrimRight.
Qed.

(** ** Error messages *)

Section messages.
Context `{Quoter}.

Lemma Errorf_gcp_write (path err : string) :
  Errorf "error writing GCP Auth config %q: %s" [AStr path; AStr err]
  = "error writing GCP Auth config " ++ quote path ++ ": " ++ err.
Proof. unfold Errorf. simpl. by rewrite append_empty_r. Qed.

Lemma Errorf_gcp_read (path err : string) :
  Errorf "error reading GCP Auth config %q: %s" [AStr path; AStr err]
  = "error reading GCP Auth config " ++ quote path ++ ": " ++ err.
Proof. unfold Errorf. simpl. by rewrite append_empty_r. Qed.

Lemma Errorf_gcp_exists (path err : string) :
  Errorf "error checking for existence of GCP Auth config %q: %s" [AStr path; AStr err]
  = "error checking for existence of GCP Auth config " ++ quote path ++ ": " ++ err.
Proof. unfold Errorf. simpl. by rewrite append_empty_r. Qed.

Lemma Errorf_auth_write (err : string) :
  Errorf "error writing to Vault: %s" [AStr err] = "error writing to Vault: " ++ err.
Proof. unfold Errorf. simpl. by rewrite append_empty_r. Qed.

Lemma Errorf_auth_read (err : string) :
  Errorf "error reading from Vault: %s" [AStr err] = "error reading from Vault: " ++ err.
Proof. unfold Errorf. simpl. by rewrite append_empty_r. Qed.

Lemma Sprintf_seconds (n : Z) : Sprintf "%ds" [AInt n] = pretty n ++ "s".
Proof. reflexivity. Qed.

Lemma names_path_quoted (s path t : string) :
  names_path (s ++ quote path ++ t) path = true.
Proof. unfold names_path. rewrite Contains_middle. apply orb_true_r. Qed.

End messages.

(** ** The payload of the GCP auth configuration *)

Lemma gcpAuthConfigureData_SetId (id : string) (d : ResourceData) :
  gcpAuthConfigureData (SetId id d) = gcpAuthConfigureData d.
Proof. reflexivity. Qed.

Lemma copy_metadata_lookup (k flag : string) (d : ResourceData)
    (data : gmap string value) :
  copy_metadata k flag d data !! k
  = Some (if as_bool (Get gcpAuthConfigSchema flag d) then VString "default"
          else VList (as_list (Get gcpAuthConfigSchema k d))).
Proof.
  unfold copy_metadata.
  destruct (as_bool (Get gcpAuthConfigSchema flag d)); by rewrite lookup_insert_eq.
Qed.

Lemma copy_metadata_lookup_ne (k flag k' : string) (d : ResourceData)
    (data : gmap string value) :
  k ≠ k' → copy_metadata k flag d data !! k' = data !! k'.
Proof.
  intros Hne. unfold copy_metadata.
  destruct (as_bool (Get gcpAuthConfigSchema flag d)); by rewrite lookup_insert_ne.
Qed.

Lemma copy_if_set_lookup_ne (k k' : string) (d : ResourceData)
    (data : gmap string value) :
  k ≠ k' → copy_if_set k d data !! k' = data !! k'.
Proof.
  intros Hne. unfold copy_if_set.
  destruct (GetOk gcpAuthConfigSchema k d) as [v []]; [by rewrite lookup_insert_ne | done].
Qed.



(** The store after an operation is the store after its last remote call. *)
Lemma gcpAuthConfigureRead_store {R} `{Quoter} `{FieldWriter}
    (d : ResourceData) (meta : Client R) (r : R) :
  (gcpAuthConfigureRead d meta r).2
  = (Logical_Read meta (gcpAuthBackendConfigPath (Id d)) r).2.
Proof.
  unfold gcpAuthConfigureRead.
  destruct (Logical_Read meta _ r) as [[e|[resp|]] r']; try reflexivity.
  by destruct (gcpAuthConfigureReadKeys _ _ _ _).
Qed.

Lemma authBackendRead_store {R} `{Quoter} `{FieldWriter}
    (d : ResourceData) (meta : Client R) (r : R) :
  (authBackendRead d meta r).2 = (Sys_ListAuth meta r).2.
Proof.
  unfold authBackendRead.
  destruct (Sys_ListAuth meta r) as [[e|auths] r']; try reflexivity.
  by destruct (authBackendReadScan _ _ _).
Qed.

Lemma fake_write_requests (path : string) (data : gmap string value) (st : fake.Store) :
  fake.requests (fake.write path data st).2
  = (fake.requests st ++ [fake.ReqWrite path data])%list.
Proof. unfold fake.write. simpl. by destruct (fake.sealed st). Qed.

Lemma fake_read_requests (path : string) (st : fake.Store) :
  fake.requests (fake.read path st).2 = (fake.requests st ++ [fake.ReqRead path])%list.
Proof. unfold fake.read. simpl. by destruct (fake.sealed st). Qed.

Lemma fake_enable_auth_requests (path : string) (o : EnableAuthOptions) (st : fake.Store) :
  fake.requests (fake.enable_auth path o st).2
  = (fake.requests st ++ [fake.ReqEnableAuth path o])%list.
Proof.
  unfold fake.enable_auth. simpl. destruct (fake.sealed st); [done |].
  by destruct (fake.mounts st !! _).
Qed.

Lemma fake_list_auth_requests (st : fake.Store) :
  fake.requests (fake.list_auth st).2 = (fake.requests st ++ [fake.ReqListAuth])%list.
Proof. unfold fake.list_auth. simpl. by destruct (fake.sealed st). Qed.

(** What the store receives from [gcpAuthConfigureWrite]: first the write of
    the assembled payload at the built path. *)
Lemma gcpAuthConfigureWrite_request `{Quoter} `{FieldWriter}
    (d : ResourceData) (st : fake.Store) :
  ∃ rest,
    fake.requests (gcpAuthConfigureWrite d fake.client st).2
    = (fake.requests st
       ++ fake.ReqWrite
            (gcpAuthBackendConfigPath (as_string (Get gcpAuthConfigSchema "path" d)))
            (gcpAuthConfigureData d) :: rest)%list.
Proof.
  unfold gcpAuthConfigureWrite.
  change (Logical_Write fake.client) with fake.write.
  pose proof (fake_write_requests
    (gcpAuthBackendConfigPath (as_string (Get gcpAuthConfigSchema "path" d)))
    (gcpAuthConfigureData d) st) as Hw.
  cbn zeta. change (Id (SetId ?i _)) with i in *.
  rewrite gcpAuthConfigureData_SetId.
  destruct (fake.write _ _ st) as [[e|] st'].
  - exists []. exact Hw.
  - rewrite gcpAuthConfigureRead_store.
    change (Logical_Read fake.client) with fake.read.
    rewrite fake_read_requests. simpl in Hw. rewrite Hw, <- app_assoc.
    by eexists.
Qed.

(** What the store receives from [authBackendWrite]: first the enabling of
    the mount with the assembled options. *)
Lemma authBackendWrite_request `{Quoter} `{FieldWriter}
    (d : ResourceData) (st : fake.Store) :
  ∃ rest,
    fake.requests (authBackendWrite d fake.client st).2
    = (fake.requests st
       ++ fake.ReqEnableAuth (authBackendMountPath d) (authBackendOptions d) :: rest)%list.
Proof.
  unfold authBackendWrite.
  change (Sys_EnableAuthWithOptions fake.client) with fake.enable_auth.
  pose proof (fake_enable_auth_requests (authBackendMountPath d)
                (authBackendOptions d) st) as Hw.
  cbn zeta.
  destruct (fake.enable_auth _ _ st) as [[e|] st'].
  - exists []. exact Hw.
  - rewrite authBackendRead_store.
    change (Sys_ListAuth fake.client) with fake.list_auth.
    rewrite fake_list_auth_requests. simpl in Hw. rewrite Hw, <- app_assoc.
    by eexists.
Qed.

(** C1. Whatever the desired state holds, the payload that
    [gcpAuthConfigureWrite] assembles and sends carries under [iam_metadata]
    the string "default" when [default_iam_metadata] is true and the elements
    of the [iam_metadata] set when it is false, and likewise under
    [gce_metadata] for [default_gce_metadata]. *)
Theorem gcpAuthConfigureWrite_default_metadata `{Quoter} `{FieldWriter}
    (d : ResourceData) (st : fake.Store) :
  (∃ rest,
     fake.requests (gcpAuthConfigureWrite d fake.client st).2
     = (fake.requests st
        ++ fake.ReqWrite
             (gcpAuthBackendConfigPath (as_string (Get gcpAuthConfigSchema "path" d)))
             (gcpAuthConfigureData d) :: rest)%list)
  ∧ gcpAuthConfigureData d !! "iam_metadata"
    = Some (if as_bool (Get gcpAuthConfigSchema "default_iam_metadata" d)
            then VString "default"
            else VList (as_list (Get gcpAuthConfigSchema "iam_metadata" d)))
  ∧ gcpAuthConfigureData d !! "gce_metadata"
    = Some (if as_bool (Get gcpAuthConfigSchema "default_gce_metadata" d)
            then VString "default"
            else VList (as_list (Get gcpAuthConfigSchema "gce_metadata" d))).
Proof.
  split; [apply gcpAuthConfigureWrite_request |].
  unfold gcpAuthConfigureData. split.
  - rewrite copy_metadata_lookup_ne by done. apply copy_metadata_lookup.
  - apply copy_metadata_lookup.
Qed.

(** ** Which fields reach the payload *)







(** ** Failed writes *)

Lemma gcpAuthConfigureWrite_failed {R} `{Quoter} `{FieldWriter}
    (d : ResourceData) (meta : Client R) (r r' : R) (path cause : string) :
  gcpAuthConfigureWriteCall d meta r = (path, (Some cause, r')) →
  gcpAuthConfigureWrite d meta r
  = (Some ("error writing GCP Auth config " ++ quote path ++ ": " ++ cause),
     SetId "" d, r').
Proof.
  unfold gcpAuthConfigureWriteCall, gcpAuthConfigureWrite. cbn zeta.
  change (Id (SetId ?i ?x)) with i.
  intros [= <- Hw]. rewrite Hw. by rewrite Errorf_gcp_write.
Qed.

Lemma authBackendWrite_failed {R} `{Quoter} `{FieldWriter}
    (d : ResourceData) (meta : Client R) (r r' : R) (path cause : string) :
  authBackendWriteCall d meta r = (path, (Some cause, r')) →
  authBackendWrite d meta r = (Some ("error writing to Vault: " ++ cause), d, r').
Proof.
  unfold authBackendWriteCall, authBackendWrite. cbn zeta.
  intros [= <- Hw]. rewrite Hw. by rewrite Errorf_auth_write.
Qed.

(** C3, as amended. When the remote write of [gcpAuthConfigureWrite] fails,
    the operation returns the error "error writing GCP Auth config", the path
    as [%q] writes it and the cause, and leaves the identity empty. When the
    remote call of [authBackendWrite] fails, the operation returns "error
    writing to Vault: " and the cause, without the path, and leaves the local
    data, the identity with it, as it was before the call. *)
Theorem failed_write `{Quoter} `{FieldWriter} {R : Type} :
  failed_write_contract (R := R) gcpAuthConfigureWrite gcpAuthConfigureWriteCall
  ∧ (∀ d (meta : Client R) r path cause r',
       gcpAuthConfigureWriteCall d meta r = (path, (Some cause, r')) →
       gcpAuthConfigureWrite d meta r
       = (Some ("error writing GCP Auth config " ++ quote path ++ ": " ++ cause),
          SetId "" d, r'))
  ∧ (∀ d (meta : Client R) r path cause r',
       authBackendWriteCall d meta r = (path, (Some cause, r')) →
       authBackendWrite d meta r
       = (Some ("error writing to Vault: " ++ cause), d, r')).
Proof.
  split; [| split].
  - intros d meta r path cause r' Hcall.
    eexists _, _. split; [by apply gcpAuthConfigureWrite_failed |].
    split; [apply names_path_quoted | reflexivity].
  - intros. by apply gcpAuthConfigureWrite_failed.
  - intros. by eapply authBackendWrite_failed.
Qed.

Lemma failed_write_witness :
  gcpAuthConfigureWrite (H := quote_ascii) (H0 := kind_writer)
    gcp_state fake.client fake.empty_sealed
  = (Some ("error writing GCP Auth config " ++ quoted "auth/gcp/config"
           ++ ": Vault is sealed"),
     SetId "" gcp_state,
     fake.log (fake.ReqWrite "auth/gcp/config" (gcpAuthConfigureData gcp_state))
       fake.empty_sealed)
  ∧ authBackendWrite (H := quote_ascii) (H0 := kind_writer)
      approle_state fake.client fake.empty_sealed
    = (Some "error writing to Vault: Vault is sealed", approle_state,
       fake.log (fake.ReqEnableAuth "approle"
                   (authBackendOptions (H := quote_ascii) approle_state))
         fake.empty_sealed).
Proof.
  destruct (failed_write (H := quote_ascii) (H0 := kind_writer) (R := fake.Store))
    as (_ & Hg & Ha).
  split.
  - apply (Hg gcp_state fake.client fake.empty_sealed "auth/gcp/config"
             "Vault is sealed"). reflexivity.
  - apply (Ha approle_state fake.client fake.empty_sealed "approle"
             "Vault is sealed"). reflexivity.
Defined.

(** C3, as stated, fails for [authBackendWrite]: against a sealed store the
    error of the write to approle is "error writing to Vault: Vault is
    sealed", which does not name the path. *)
Lemma authBackendWrite_error_omits_path :
  ¬ failed_write_contract (R := fake.Store) (H := quote_ascii)
      (authBackendWrite (H := quote_ascii) (H0 := kind_writer))
      (authBackendWriteCall (H := quote_ascii)).
Proof.
  intros Hc.
  destruct (Hc approle_state fake.client fake.empty_sealed "approle"
              "Vault is sealed" _ eq_refl) as (msg & d' & Hw & Hn & _).
  rewrite (authBackendWrite_failed (H := quote_ascii) (H0 := kind_writer)
             approle_state fake.client fake.empty_sealed _
             "approle" "Vault is sealed" eq_refl) in Hw.
  injection Hw as <- _. vm_compute in Hn. discriminate Hn.
Qed.

(** ** Reads that find nothing *)

Lemma authBackendReadScan_None `{FieldWriter} (targetPath : string)
    (auths : list (string * AuthMount)) (d : ResourceData) :
  (∀ auth, (targetPath, auth) ∉ auths) →
  authBackendReadScan targetPath auths d = None.
Proof.
  induction auths as [|[path auth] auths IH]; intros Hnot; [done |].
  simpl. rewrite bool_decide_eq_false_2.
  - apply IH. intros a Ha. apply (Hnot a). by right.
  - intros ->. apply (Hnot auth). by left.
Qed.

Lemma authBackendReadScan_Some `{FieldWriter} (targetPath : string)
    (auths : list (string * AuthMount)) (auth : AuthMount) (d : ResourceData) :
  NoDup (auths.*1) → (targetPath, auth) ∈ auths →
  authBackendReadScan targetPath auths d
  = Some (authBackendReadEntry targetPath auth d).
Proof.
  induction auths as [|[path a] auths IH]; intros Hnd Hin;
    [by apply elem_of_nil in Hin |].
  simpl. apply NoDup_cons in Hnd as [Hfresh Hnd].
  apply elem_of_cons in Hin as [[= <- <-]|Hin].
  - by rewrite bool_decide_eq_true_2.
  - rewrite bool_decide_eq_false_2; [by apply IH |].
    intros ->. apply Hfresh. apply list_elem_of_fmap. by exists (targetPath, auth).
Qed.

(** The loop over the listing finds the entry of the target path, if the
    listing has one. *)
Lemma authBackendReadScan_lookup `{FieldWriter} (targetPath : string)
    (auths : gmap string AuthMount) (d : ResourceData) :
  authBackendReadScan targetPath (map_to_list auths) d
  = (λ auth, authBackendReadEntry targetPath auth d) <$> auths !! targetPath.
Proof.
  destruct (auths !! targetPath) as [auth|] eqn:Hl; simpl.
  - apply authBackendReadScan_Some; [apply NoDup_fst_map_to_list |].
    by apply elem_of_map_to_list.
  - apply authBackendReadScan_None. intros auth Hin.
    apply elem_of_map_to_list in Hin. congruence.
Qed.

(** C4. A read that finds no remote object empties the identity and returns
    no error: [gcpAuthConfigureRead] when the response is nil, and
    [authBackendRead] when the listing has no entry for the identity followed
    by the separator. The attributes stay as they were. *)
Theorem read_absent_clears_identity `{Quoter} `{FieldWriter} {R : Type}
    (d : ResourceData) (meta : Client R) (r r' : R) :
  (Logical_Read meta (gcpAuthBackendConfigPath (Id d)) r = (inr None, r') →
   ∃ d', gcpAuthConfigureRead d meta r = (None, d', r')
         ∧ Id d' = "" ∧ attrs d' = attrs d)
  ∧ (∀ auths, Sys_ListAuth meta r = (inr auths, r') →
       auths !! (Id d ++ "/") = None →
       ∃ d', authBackendRead d meta r = (None, d', r')
             ∧ Id d' = "" ∧ attrs d' = attrs d).
Proof.
  split.
  - intros Hr. exists (SetId "" d). unfold gcpAuthConfigureRead. cbn zeta.
    by rewrite Hr.
  - intros auths Hl Hnone. exists (SetId "" d). unfold authBackendRead. cbn zeta.
    by rewrite Hl, authBackendReadScan_lookup, Hnone.
Qed.

Lemma read_absent_clears_identity_witness :
  (∃ d', gcpAuthConfigureRead (H := quote_ascii) (H0 := kind_writer)
           gcp_written fake.client fake.empty
         = (None, d', fake.log (fake.ReqRead "auth/gcp/config") fake.empty)
         ∧ Id d' = "" ∧ attrs d' = attrs gcp_written)
  ∧ (∃ d', authBackendRead (H := quote_ascii) (H0 := kind_writer)
             approle_created fake.client fake.empty
           = (None, d', fake.log fake.ReqListAuth fake.empty)
           ∧ Id d' = "" ∧ attrs d' = attrs approle_created).
Proof.
  split.
  - apply (read_absent_clears_identity (H := quote_ascii) (H0 := kind_writer)
             gcp_written fake.client fake.empty). reflexivity.
  - apply (proj2 (read_absent_clears_identity (H := quote_ascii) (H0 := kind_writer)
                    approle_created fake.client fake.empty _) ∅); reflexivity.
Defined.

(** ** Failed reads *)

Lemma gcpAuthConfigureRead_failed {R} `{Quoter} `{FieldWriter}
    (d : ResourceData) (meta : Client R) (r r' : R) (cause : string) :
  Logical_Read meta (gcpAuthBackendConfigPath (Id d)) r = (inl cause, r') →
  gcpAuthConfigureRead d meta r
  = (Some ("error reading GCP Auth config "
           ++ quote (gcpAuthBackendConfigPath (Id d)) ++ ": " ++ cause), d, r').
Proof.
  intros Hr. unfold gcpAuthConfigureRead. cbn zeta. rewrite Hr.
  by rewrite Errorf_gcp_read.
Qed.

Lemma authBackendRead_failed {R} `{Quoter} `{FieldWriter}
    (d : ResourceData) (meta : Client R) (r r' : R) (cause : string) :
  Sys_ListAuth meta r = (inl cause, r') →
  authBackendRead d meta r = (Some ("error reading from Vault: " ++ cause), d, r').
Proof.
  intros Hr. unfold authBackendRead. cbn zeta. rewrite Hr.
  by rewrite Errorf_auth_read.
Qed.

(** C5, as amended. When the remote read of [gcpAuthConfigureRead] fails, the
    operation returns an error that carries the path, as [%q] writes it, and
    the cause, and the local data is as before. When the listing call of
    [authBackendRead] fails, the operation returns "error reading from
    Vault: " and the cause, without a path, and the local data is as
    before. *)
Theorem failed_read `{Quoter} `{FieldWriter} {R : Type} :
  failed_read_contract (R := R) gcpAuthConfigureRead
    (λ d, gcpAuthBackendConfigPath (Id d))
    (λ d meta r, Logical_Read meta (gcpAuthBackendConfigPath (Id d)) r)
  ∧ (∀ d (meta : Client R) r cause r',
       Sys_ListAuth meta r = (inl cause, r') →
       ∃ msg, authBackendRead d meta r = (Some msg, d, r')
              ∧ msg = "error reading from Vault: " ++ cause
              ∧ strings.Contains msg cause = true).
Proof.
  split.
  - intros d meta r cause r' Hr. eexists. split; [by apply gcpAuthConfigureRead_failed |].
    split; [apply names_path_quoted |].
    rewrite <- !append_assoc. apply Contains_end.
  - intros d meta r cause r' Hr. eexists. split; [by apply authBackendRead_failed |].
    split; [reflexivity | apply Contains_end].
Qed.

Lemma failed_read_witness :
  (∃ msg, gcpAuthConfigureRead (H := quote_ascii) (H0 := kind_writer)
            gcp_written fake.client fake.empty_sealed
          = (Some msg, gcp_written,
             fake.log (fake.ReqRead "auth/gcp/config") fake.empty_sealed)
          ∧ names_path (H := quote_ascii) msg "auth/gcp/config" = true
          ∧ strings.Contains msg "Vault is sealed" = true)
  ∧ (∃ msg, authBackendRead (H := quote_ascii) (H0 := kind_writer)
              approle_created fake.client fake.empty_sealed
            = (Some msg, approle_created, fake.log fake.ReqListAuth fake.empty_sealed)
            ∧ msg = "error reading from Vault: Vault is sealed"
            ∧ strings.Contains msg "Vault is sealed" = true).
Proof.
  destruct (failed_read (H := quote_ascii) (H0 := kind_writer) (R := fake.Store))
    as (Hg & Ha).
  split.
  - apply (Hg gcp_written fake.client fake.empty_sealed "Vault is sealed").
    reflexivity.
  - apply (Ha approle_created fake.client fake.empty_sealed "Vault is sealed").
    reflexivity.
Defined.

(** C5, as stated, fails for [authBackendRead]: against a sealed store the
    error of the read of approle is "error reading from Vault: Vault is
    sealed", which does not name the path. *)
Lemma authBackendRead_error_omits_path :
  ¬ failed_read_contract (R := fake.Store) (H := quote_ascii)
      (authBackendRead (H := quote_ascii) (H0 := kind_writer))
      Id (λ d meta r, Sys_ListAuth meta r).
Proof.
  intros Hc.
  destruct (Hc approle_created fake.client fake.empty_sealed
              "Vault is sealed" _ eq_refl) as (msg & Hr & Hn & _).
  rewrite (authBackendRead_failed (H := quote_ascii) (H0 := kind_writer)
             approle_created fake.client fake.empty_sealed _
             "Vault is sealed" eq_refl) in Hr.
  injection Hr as <-. vm_compute in Hn. discriminate Hn.
Qed.

(** ** The existence check *)

(** C6. When the remote read succeeds, [gcpAuthConfigureExists] answers
    whether the response is not nil, without an error; when the remote read
    fails, it answers true together with an error that carries the cause. *)
Theorem gcpAuthConfigureExists_present_on_error `{Quoter} {R : Type}
    (d : ResourceData) (meta : Client R) (r r' : R) :
  (∀ resp, Logical_Read meta (gcpAuthBackendConfigPath (Id d)) r = (inr resp, r') →
     gcpAuthConfigureExists d meta r
     = (match resp with Some _ => true | None => false end, None, r'))
  ∧ (∀ cause, Logical_Read meta (gcpAuthBackendConfigPath (Id d)) r = (inl cause, r') →
       ∃ msg, gcpAuthConfigureExists d meta r = (true, Some msg, r')
              ∧ msg = "error checking for existence of GCP Auth config "
                      ++ quote (gcpAuthBackendConfigPath (Id d)) ++ ": " ++ cause
              ∧ strings.Contains msg cause = true).
Proof.
  split.
  - intros resp Hr. unfold gcpAuthConfigureExists. cbn zeta. rewrite Hr.
    by destruct resp.
  - intros cause Hr. eexists. split; [| split; [reflexivity |]].
    + unfold gcpAuthConfigureExists. cbn zeta. rewrite Hr.
      by rewrite Errorf_gcp_exists.
    + rewrite <- !append_assoc. apply Contains_end.
Qed.

Lemma gcpAuthConfigureExists_present_on_error_witness :
  gcpAuthConfigureExists (H := quote_ascii) gcp_written fake.client fake.empty
  = (false, None, fake.log (fake.ReqRead "auth/gcp/config") fake.empty)
  ∧ (∃ msg, gcpAuthConfigureExists (H := quote_ascii)
              gcp_written fake.client fake.empty_sealed
            = (true, Some msg,
               fake.log (fake.ReqRead "auth/gcp/config") fake.empty_sealed)
            ∧ msg = "error checking for existence of GCP Auth config "
                    ++ quoted "auth/gcp/config" ++ ": Vault is sealed"
            ∧ strings.Contains msg "Vault is sealed" = true).
Proof.
  split.
  - apply (proj1 (gcpAuthConfigureExists_present_on_error (H := quote_ascii)
                    gcp_written fake.client fake.empty _) None). reflexivity.
  - apply (proj2 (gcpAuthConfigureExists_present_on_error (H := quote_ascii)
                    gcp_written fake.client fake.empty_sealed _) "Vault is sealed").
    reflexivity.
Defined.

(** ** Reading an auth backend from the listing *)

Lemma d_Set_typed {W : FieldWriter} (m : SchemaMap) (k : string) (s : Schema)
    (v : value) (d : ResourceData) :
  stores_typed_primitives W →
  schema_lookup m k = Some s → Type_ s ≠ TypeSet → has_type (Type_ s) v = true →
  d_Set m k v d = (None, {| Id := Id d; attrs := <[k := v]> (attrs d) |}).
Proof.
  intros HW Hs Hns Ht. unfold d_Set. rewrite Hs. by rewrite (HW _ _ Hns Ht).
Qed.

(** With a field writer that stores typed primitives, the eight [d.Set] of
    the loop body are eight insertions. *)
Lemma authBackendReadEntry_attrs {W : FieldWriter} (path : string) (auth : AuthMount)
    (d : ResourceData) :
  stores_typed_primitives W →
  authBackendReadEntry path auth d
  = {| Id := Id d;
       attrs :=
         <["accessor" := VString (mount_Accessor auth)]>
         (<["local" := VBool (mount_Local auth)]>
         (<["listing_visibility" := VString (out_ListingVisibility (mount_Config auth))]>
         (<["max_lease_ttl_seconds" := VInt (out_MaxLeaseTTL (mount_Config auth))]>
         (<["default_lease_ttl_seconds" := VInt (out_DefaultLeaseTTL (mount_Config auth))]>
         (<["description" := VString (mount_Description auth)]>
         (<["path" := VString path]>
         (<["type" := VString (mount_Type auth)]> (attrs d)))))))) |}.
Proof.
  intros HW. unfold authBackendReadEntry.
  repeat (erewrite (d_Set_typed authBackendSchema _ _ _ _ HW);
          [ cbn [snd Id attrs] | reflexivity | done | reflexivity ]).
  reflexivity.
Qed.

(** C9. [authBackendRead] looks in the listing for the entry whose key is the
    identity followed by the separator. When the listing has it, the
    operation returns no error, keeps the identity and sets [type], [path],
    [description], the two TTLs, [listing_visibility], [local] and [accessor]
    from the entry, [path] being the key itself, and touches no other
    attribute; when the listing has no such entry, it returns no error and
    empties the identity. *)
Theorem authBackendRead_scans_listing `{Quoter} {W : FieldWriter} {R : Type}
    (d : ResourceData) (meta : Client R) (r r' : R) (auths : gmap string AuthMount) :
  stores_typed_primitives W →
  Sys_ListAuth meta r = (inr auths, r') →
  match auths !! (Id d ++ "/") with
  | Some auth =>
      ∃ d', authBackendRead d meta r = (None, d', r')
            ∧ Id d' = Id d
            ∧ attrs d' !! "type" = Some (VString (mount_Type auth))
            ∧ attrs d' !! "path" = Some (VString (Id d ++ "/"))
            ∧ attrs d' !! "description" = Some (VString (mount_Description auth))
            ∧ attrs d' !! "default_lease_ttl_seconds"
              = Some (VInt (out_DefaultLeaseTTL (mount_Config auth)))
            ∧ attrs d' !! "max_lease_ttl_seconds"
              = Some (VInt (out_MaxLeaseTTL (mount_Config auth)))
            ∧ attrs d' !! "listing_visibility"
              = Some (VString (out_ListingVisibility (mount_Config auth)))
            ∧ attrs d' !! "local" = Some (VBool (mount_Local auth))
            ∧ attrs d' !! "accessor" = Some (VString (mount_Accessor auth))
            ∧ ∀ k, k ∉ authBackendReadKeys → attrs d' !! k = attrs d !! k
  | None => authBackendRead d meta r = (None, SetId "" d, r')
  end.
Proof.
  intros HW Hl. unfold authBackendRead. cbn zeta.
  rewrite Hl, authBackendReadScan_lookup.
  destruct (auths !! (Id d ++ "/")) as [auth|]; [| reflexivity].
  cbn [fmap option_fmap option_map]. eexists. split; [reflexivity |].
  rewrite (authBackendReadEntry_attrs _ _ _ HW). cbn [Id attrs].
  split; [reflexivity |].
  repeat (split; [by repeat (rewrite lookup_insert_ne by done);
                     rewrite lookup_insert_eq |]).
  intros k Hk. unfold authBackendReadKeys in Hk.
  repeat (rewrite lookup_insert_ne; [| intros <-; apply Hk; set_solver]).
  reflexivity.
Qed.

Lemma kind_writer_stores_typed_primitives : stores_typed_primitives kind_writer.
Proof. intros t v _ Ht. unfold write_field, kind_writer. by rewrite Ht. Qed.

Lemma authBackendRead_scans_listing_witness :
  ∃ d', authBackendRead (H := quote_ascii) (H0 := kind_writer)
          approle_created fake.client store_with_approle
        = (None, d', fake.log fake.ReqListAuth store_with_approle)
        ∧ Id d' = "approle"
        ∧ attrs d' !! "type" = Some (VString "approle")
        ∧ attrs d' !! "path" = Some (VString "approle/")
        ∧ attrs d' !! "description" = Some (VString "")
        ∧ attrs d' !! "default_lease_ttl_seconds" = Some (VInt 3600)
        ∧ attrs d' !! "max_lease_ttl_seconds" = Some (VInt 0)
        ∧ attrs d' !! "listing_visibility" = Some (VString "")
        ∧ attrs d' !! "local" = Some (VBool false)
        ∧ attrs d' !! "accessor" = Some (VString "auth_approle")
        ∧ ∀ k, k ∉ authBackendReadKeys →
               attrs d' !! k = attrs approle_created !! k.
Proof.
  exact (authBackendRead_scans_listing (H := quote_ascii) (W := kind_writer)
           approle_created fake.client store_with_approle _ _
           kind_writer_stores_typed_primitives eq_refl).
Defined.

(** ** The JSON fragment decodes what it encodes *)

Lemma plain_not_dquote (c : ascii) :
  minijson.plain c = true → Ascii.eqb c dquote = false.
Proof.
  unfold minijson.plain. destruct (Ascii.eqb c dquote); [| done].
  by rewrite andb_false_r.
Qed.

Lemma run_key (k' : string) (m : gmap string string) (k rest : string) :
  minijson.all_plain k' = true →
  minijson.run (minijson.PKey m k) (k' ++ String dquote rest)
  = minijson.run (minijson.PColon m (k ++ k')) rest.
Proof.
  revert k. induction k' as [|c k' IH]; intros k Hp.
  - change ("" ++ String dquote rest) with (String dquote rest).
    cbn [minijson.run minijson.step]. by rewrite Ascii.eqb_refl, append_empty_r.
  - simpl in Hp. apply andb_true_iff in Hp as [Hc Hp].
    rewrite append_cons. cbn [minijson.run minijson.step].
    rewrite (plain_not_dquote c Hc), Hc, (IH _ Hp).
    unfold minijson.snoc. by rewrite append_assoc.
Qed.

Lemma run_value (v' : string) (m : gmap string string) (k v rest : string) :
  minijson.all_plain v' = true →
  minijson.run (minijson.PValue m k v) (v' ++ String dquote rest)
  = minijson.run (minijson.PNext (<[k := v ++ v']> m)) rest.
Proof.
  revert v. induction v' as [|c v' IH]; intros v Hp.
  - change ("" ++ String dquote rest) with (String dquote rest).
    cbn [minijson.run minijson.step]. by rewrite Ascii.eqb_refl, append_empty_r.
  - simpl in Hp. apply andb_true_iff in Hp as [Hc Hp].
    rewrite append_cons. cbn [minijson.run minijson.step].
    rewrite (plain_not_dquote c Hc), Hc, (IH _ Hp).
    unfold minijson.snoc. by rewrite append_assoc.
Qed.

Lemma member_app (p : string * string) (rest : string) :
  minijson.member p ++ rest
  = String dquote (p.1 ++ String dquote (String ":"
      (String dquote (p.2 ++ String dquote rest)))).
Proof.
  unfold minijson.member, quoted.
  repeat first [rewrite append_cons | rewrite append_assoc | rewrite append_empty_l].
  reflexivity.
Qed.

Lemma run_member_tail (m : gmap string string) (p : string * string) (rest : string) :
  minijson.all_plain p.1 = true → minijson.all_plain p.2 = true →
  minijson.run (minijson.PKey m "") (p.1 ++ String dquote (String ":"
      (String dquote (p.2 ++ String dquote rest))))
  = minijson.run (minijson.PNext (<[p.1 := p.2]> m)) rest.
Proof.
  intros Hk Hv. rewrite (run_key _ _ _ _ Hk).
  change (minijson.run (minijson.PValue m ("" ++ p.1) "") (p.2 ++ String dquote rest)
          = minijson.run (minijson.PNext (<[p.1 := p.2]> m)) rest).
  by rewrite (run_value _ _ _ _ _ Hv).
Qed.

Lemma run_first_member (m : gmap string string) (p : string * string) (rest : string) :
  minijson.all_plain p.1 = true → minijson.all_plain p.2 = true →
  minijson.run (minijson.PFirst m) (minijson.member p ++ rest)
  = minijson.run (minijson.PNext (<[p.1 := p.2]> m)) rest.
Proof. intros Hk Hv. rewrite member_app. by apply run_member_tail. Qed.

Lemma run_next_member (m : gmap string string) (p : string * string) (rest : string) :
  minijson.all_plain p.1 = true → minijson.all_plain p.2 = true →
  minijson.run (minijson.PKeyStart m) (minijson.member p ++ rest)
  = minijson.run (minijson.PNext (<[p.1 := p.2]> m)) rest.
Proof. intros Hk Hv. rewrite member_app. by apply run_member_tail. Qed.

Lemma run_more_members (l : list (string * string)) (m : gmap string string)
    (rest : string) :
  minijson.all_plain_members l = true →
  minijson.run (minijson.PNext m) (minijson.more_members l ++ rest)
  = minijson.run (minijson.PNext (foldl (λ acc p, <[p.1 := p.2]> acc) m l)) rest.
Proof.
  revert m. induction l as [|p l IH]; intros m Hp; [done |].
  simpl in Hp. apply andb_true_iff in Hp as [Hkv Hp].
  apply andb_true_iff in Hkv as [Hk Hv].
  cbn [minijson.more_members foldl]. rewrite !append_assoc.
  change ("," ++ ?s) with (String ","%char s).
  cbn [minijson.run minijson.step].
  change (minijson.run (minijson.PKeyStart m)
            (minijson.member p ++ minijson.more_members l ++ rest)
          = minijson.run
              (minijson.PNext (foldl (λ acc q, <[q.1 := q.2]> acc) (<[p.1 := p.2]> m) l))
              rest).
  rewrite (run_next_member _ _ _ Hk Hv). by apply IH.
Qed.

Lemma foldl_insert_reverse (l : list (string * string)) :
  foldl (λ acc p, <[p.1 := p.2]> acc) (∅ : gmap string string) l
  = list_to_map (reverse l).
Proof.
  induction l as [|p l IH] using rev_ind; [done |].
  rewrite foldl_app, reverse_app. simpl. by rewrite IH.
Qed.

Lemma foldl_insert_sorted (m : gmap string string) :
  foldl (λ acc p, <[p.1 := p.2]> acc) (∅ : gmap string string)
    (minijson.sorted_members m) = m.
Proof.
  rewrite foldl_insert_reverse. symmetry. apply list_to_map_flip.
  unfold minijson.sorted_members.
  by rewrite reverse_Permutation, merge_sort_Permutation.
Qed.

Lemma run_object (l : list (string * string)) :
  minijson.all_plain_members l = true →
  minijson.run minijson.PStart ("{" ++ minijson.members l ++ "}")
  = minijson.PEnd (foldl (λ acc p, <[p.1 := p.2]> acc) ∅ l).
Proof.
  intros Hp. change ("{" ++ ?s) with (String "{"%char s).
  cbn [minijson.run minijson.step].
  change (minijson.run (minijson.PFirst ∅) (minijson.members l ++ "}")
          = minijson.PEnd (foldl (λ acc p, <[p.1 := p.2]> acc) ∅ l)).
  destruct l as [|p l]; [reflexivity |].
  simpl in Hp. apply andb_true_iff in Hp as [Hkv Hp].
  apply andb_true_iff in Hkv as [Hk Hv].
  cbn [minijson.members foldl]. rewrite append_assoc.
  rewrite (run_first_member _ _ _ Hk Hv), (run_more_members _ _ _ Hp).
  reflexivity.
Qed.

Lemma decode_encode (m : gmap string string) (s : string) :
  minijson.encode m = inr s → minijson.decode s = inr m.
Proof.
  unfold minijson.encode. cbn zeta.
  destruct (minijson.all_plain_members (minijson.sorted_members m)) eqn:Hp;
    [| discriminate].
  intros [= <-]. unfold minijson.decode.
  by rewrite (run_object _ Hp), foldl_insert_sorted.
Qed.

Lemma minijson_marshal_roundtrip : marshal_roundtrip minijson.codec.
Proof. intros x m s _ He. by apply decode_encode. Qed.

(** ** The credential codecs *)

Lemma NormalizeGCPCredentials_decoded {J : JSONCodec} (x : string) (m : DataMap) :
  Unmarshal x = inr m →
  NormalizeGCPCredentials (VString x)
  = match Marshal m with inl _ => x | inr ret => ret end.
Proof. intros Hx. unfold NormalizeGCPCredentials. simpl. by rewrite Hx. Qed.

(** C8. With a JSON codec whose encoder writes texts that decode to the map
    encoded, normalizing a text that decodes is idempotent: normalizing the
    normalized text gives the normalized text. And the validator answers a
    text that does not decode with one error, the decoder's, so with a list
    of errors that is not empty. *)
Theorem credentials_normalize_validate {J : JSONCodec} :
  marshal_roundtrip J →
  (∀ x m, Unmarshal x = inr m →
     NormalizeGCPCredentials (VString (NormalizeGCPCredentials (VString x)))
     = NormalizeGCPCredentials (VString x))
  ∧ (∀ x e k, Unmarshal x = inl e →
       ValidateGCPCredentials (VString x) k = ([], [e])
       ∧ (ValidateGCPCredentials (VString x) k).2 ≠ []).
Proof.
  intros HJ. split.
  - intros x m Hx. rewrite (NormalizeGCPCredentials_decoded x m Hx).
    destruct (Marshal m) as [e|ret] eqn:Hm.
    + rewrite (NormalizeGCPCredentials_decoded x m Hx). by rewrite Hm.
    + rewrite (NormalizeGCPCredentials_decoded ret m (HJ x m ret Hx Hm)).
      by rewrite Hm.
  - intros x e k Hx. unfold ValidateGCPCredentials. simpl. by rewrite Hx.
Qed.

Lemma credentials_normalize_validate_witness :
  NormalizeGCPCredentials (H := minijson.codec)
    (VString (NormalizeGCPCredentials (H := minijson.codec) (VString loose_credentials)))
  = NormalizeGCPCredentials (H := minijson.codec) (VString loose_credentials)
  ∧ ValidateGCPCredentials (H := minijson.codec) (VString not_json) "credentials"
    = ([], ["invalid character looking for beginning of object key string"]).
Proof.
  destruct (credentials_normalize_validate (J := minijson.codec)
              minijson_marshal_roundtrip) as [Hn Hv].
  split.
  - apply (Hn loose_credentials
             (<["client_id" := "42"]> (<["project_id" := "p1"]> ∅))).
    vm_compute. reflexivity.
  - apply (Hv not_json). reflexivity.
Defined.

Lemma gojson_marshal_roundtrip : marshal_roundtrip gojson.codec.
Proof.
  intros x [m|] s _ He; simpl in *.
  - unfold gojson.decode.
    assert (gojson.is_null s = false) as ->.
    { unfold minijson.encode in He. cbn zeta in He.
      destruct (minijson.all_plain_members _); [| discriminate].
      by injection He as <-. }
    by rewrite (decode_encode m s He).
  - by injection He as <-.
Qed.

Lemma gojson_empty_undecodable : empty_undecodable gojson.codec.
Proof. intros m. discriminate. Qed.

(** C10, as amended. Whatever text [json.Unmarshal] fails to decode into the
    map, the normalizer returns the empty string for it: not the text, and
    no error. A text that decodes is not lost in this way: with a codec
    whose encoder writes texts that decode to the map encoded and that does
    not decode the empty text, as [encoding/json] is, the result is the
    empty string exactly when the decoding fails. *)
Theorem NormalizeGCPCredentials_empty_iff {J : JSONCodec} :
  (∀ x e, Unmarshal x = inl e → NormalizeGCPCredentials (VString x) = "")
  ∧ (marshal_roundtrip J → empty_undecodable J →
     ∀ x, NormalizeGCPCredentials (VString x) = "" ↔ ∃ e, Unmarshal x = inl e).
Proof.
  assert (∀ x e, Unmarshal x = inl e → NormalizeGCPCredentials (VString x) = "")
    as Hfail.
  { intros x e Hx. unfold NormalizeGCPCredentials. simpl. by rewrite Hx. }
  split; [exact Hfail |].
  intros HJ Hempty x. split.
  - intros Hn. destruct (Unmarshal x) as [e|m] eqn:Hx; [by exists e |].
    exfalso. rewrite (NormalizeGCPCredentials_decoded x m Hx) in Hn.
    destruct (Marshal m) as [e|s] eqn:Hm.
    + subst x. by apply (Hempty m).
    + subst s. by apply (Hempty m), (HJ x).
  - intros [e Hx]. by apply (Hfail x e).
Qed.

Lemma NormalizeGCPCredentials_empty_iff_witness :
  NormalizeGCPCredentials (H := gojson.codec) (VString not_json) = ""
  ∧ (NormalizeGCPCredentials (H := gojson.codec) (VString loose_credentials) = ""
     ↔ ∃ e, Unmarshal (JSONCodec := gojson.codec) loose_credentials = inl e)
  ∧ (NormalizeGCPCredentials (H := gojson.codec) (VString "null") = ""
     ↔ ∃ e, Unmarshal (JSONCodec := gojson.codec) "null" = inl e).
Proof.
  destruct (NormalizeGCPCredentials_empty_iff (J := gojson.codec)) as [Hf Hiff].
  split; [| split].
  - apply (Hf not_json
             "invalid character looking for beginning of object key string").
    reflexivity.
  - apply (Hiff gojson_marshal_roundtrip gojson_empty_undecodable).
  - apply (Hiff gojson_marshal_roundtrip gojson_empty_undecodable).
Defined.

(** C10, as stated, fails: the text null is no JSON object, and yet it
    decodes without an error, into the nil map, and is normalized to the
    text null, not to the empty string. *)
Lemma NormalizeGCPCredentials_null_not_empty :
  ¬ normalizes_non_objects_to_empty gojson.codec.
Proof.
  intros Hc. specialize (Hc "null" eq_refl).
  assert (NormalizeGCPCredentials (H := gojson.codec) (VString "null") = "null")
    as Hnull by reflexivity.
  rewrite Hc in Hnull. discriminate Hnull.
Qed.

(** ** The path field of the auth backend *)

Lemma rev_app_append (s t acc : string) :
  String.rev_app (s ++ t) acc = String.rev_app t (String.rev_app s acc).
Proof.
  revert acc. induction s as [|a s IH]; intros acc; [done |].
  rewrite append_cons. simpl. apply IH.
Qed.

Lemma HasSuffix_separator (p : string) : strings.HasSuffix (p ++ "/") "/" = true.
Proof.
  unfold strings.HasSuffix, String.rev. rewrite rev_app_append. simpl.
  by destruct (String.rev_app p "").
Qed.

(** ** Scenarios against the in-memory store *)

(** Writing the approle backend with a default lease of an hour: the store
    is asked to enable approle with the type approle and the lease "3600s",
    and the data read back has the identity approle, the type approle and the
    lease 3600. *)
Theorem authBackendWrite_approle_scenario :
  ∃ d' st',
    authBackendWrite (H := quote_ascii) (H0 := kind_writer)
      approle_state fake.client fake.empty = (None, d', st')
    ∧ fake.requests st'
      = [ fake.ReqEnableAuth "approle"
            {| opt_Type := "approle"; opt_Description := "";
               opt_Config :=
                 {| DefaultLeaseTTL := "3600s"; MaxLeaseTTL := "0s";
                    AuditNonHMACRequestKeys := []; AuditNonHMACResponseKeys := [];
                    ListingVisibility := ""; PassthroughRequestHeaders := [] |};
               opt_Local := false |};
          fake.ReqListAuth ]
    ∧ Id d' = "approle"
    ∧ attrs d' !! "type" = Some (VString "approle")
    ∧ attrs d' !! "default_lease_ttl_seconds" = Some (VInt 3600).
Proof. eexists _, _. split; [vm_compute; reflexivity |]. by vm_compute. Qed.

(** X4. Deleting the GCP auth configuration writes an empty payload at its path,
    and doing so a second time succeeds as well. *)
Theorem gcpAuthConfigureDelete_twice `{Quoter} (d : ResourceData) (st : fake.Store) :
  fake.sealed st = false →
  ∃ st1 st2,
    gcpAuthConfigureDelete d fake.client st = (None, st1)
    ∧ gcpAuthConfigureDelete d fake.client st1 = (None, st2)
    ∧ fake.objects st2 !! gcpAuthBackendConfigPath (Id d) = Some ∅
    ∧ fake.requests st2
      = (fake.requests st
         ++ [ fake.ReqWrite (gcpAuthBackendConfigPath (Id d)) ∅;
              fake.ReqWrite (gcpAuthBackendConfigPath (Id d)) ∅ ])%list.
Proof.
  intros Hs. unfold gcpAuthConfigureDelete. cbn zeta.
  change (Logical_Write fake.client) with fake.write.
  unfold fake.write. cbn [fake.log fake.sealed fake.objects fake.mounts fake.requests].
  rewrite Hs. eexists _, _. split; [reflexivity |].
  cbn [fake.log fake.sealed fake.objects fake.mounts fake.requests].
  split; [reflexivity |].
  cbn [fake.log fake.sealed fake.objects fake.mounts fake.requests].
  split; [by rewrite lookup_insert_eq |].
  by rewrite <- app_assoc.
Qed.

Lemma gcpAuthConfigureDelete_twice_witness :
  ∃ st1 st2,
    gcpAuthConfigureDelete (H := quote_ascii) gcp_written fake.client fake.empty
    = (None, st1)
    ∧ gcpAuthConfigureDelete (H := quote_ascii) gcp_written fake.client st1
      = (None, st2)
    ∧ fake.objects st2 !! "auth/gcp/config" = Some ∅
    ∧ fake.requests st2
      = [ fake.ReqWrite "auth/gcp/config" ∅; fake.ReqWrite "auth/gcp/config" ∅ ].
Proof.
  exact (gcpAuthConfigureDelete_twice (H := quote_ascii) gcp_written fake.empty eq_refl).
Defined.

(** ** What a read copies, and what a successful write does next *)

Lemma d_Set_other `{FieldWriter} (m : SchemaMap) (k k' : string) (v : value)
    (d : ResourceData) :
  k ≠ k' → attrs (d_Set m k v d).2 !! k' = attrs d !! k'.
Proof.
  intros Hne. unfold d_Set. destruct (schema_lookup m k) as [s|]; [| done].
  destruct (write_field (Type_ s) v) as [e|v']; [done |].
  simpl. by rewrite lookup_insert_ne.
Qed.

Lemma d_Set_Id `{FieldWriter} (m : SchemaMap) (k : string) (v : value)
    (d : ResourceData) :
  Id (d_Set m k v d).2 = Id d.
Proof.
  unfold d_Set. destruct (schema_lookup m k) as [s|]; [| done].
  by destruct (write_field (Type_ s) v).
Qed.

(** X5. The loop of [gcpAuthConfigureRead] keeps the identity and leaves
    alone every attribute the response omits. *)
Theorem gcpAuthConfigureReadKeys_skips_omitted `{Quoter} `{FieldWriter}
    (path : string) (keys : list string) (data : gmap string value)
    (d : ResourceData) (k : string) :
  data !! k = None →
  Id (gcpAuthConfigureReadKeys path keys data d).2 = Id d
  ∧ attrs (gcpAuthConfigureReadKeys path keys data d).2 !! k = attrs d !! k.
Proof.
  intros Hk. revert d. induction keys as [|k' keys IH]; intros d; [done |].
  cbn [gcpAuthConfigureReadKeys].
  destruct (data !! k') as [v|] eqn:Hk'; [| apply IH].
  assert (k' ≠ k) as Hne by congruence.
  pose proof (d_Set_other gcpAuthConfigSchema k' k v d Hne) as Ha.
  pose proof (d_Set_Id gcpAuthConfigSchema k' v d) as Hi.
  destruct (d_Set gcpAuthConfigSchema k' v d) as [[e|] d1]; simpl in *; [done |].
  destruct (IH d1) as [IHi IHa]. by rewrite IHi, IHa.
Qed.

Lemma gcpAuthConfigureReadKeys_skips_omitted_witness :
  Id (gcpAuthConfigureReadKeys (H := quote_ascii) (H0 := kind_writer)
        "auth/gcp/config" gcpAuthConfigReadKeys
        {[ "client_id" := VString "42" ]} gcp_written).2 = "gcp"
  ∧ attrs (gcpAuthConfigureReadKeys (H := quote_ascii) (H0 := kind_writer)
             "auth/gcp/config" gcpAuthConfigReadKeys
             {[ "client_id" := VString "42" ]} gcp_written).2 !! "iam_metadata"
    = Some (VList ["foo=bar"]).
Proof.
  exact (gcpAuthConfigureReadKeys_skips_omitted (H := quote_ascii) (H0 := kind_writer)
           "auth/gcp/config" gcpAuthConfigReadKeys {[ "client_id" := VString "42" ]}
           gcp_written "iam_metadata" eq_refl).
Defined.

(** After a remote write that succeeded, [gcpAuthConfigureWrite] is the read
    of the data whose identity is the [path] field, and [authBackendWrite]
    is the read of the data whose identity is the mount path. *)
Lemma write_then_read `{Quoter} `{FieldWriter} {R : Type}
    (d : ResourceData) (meta : Client R) (r r' : R) (path : string) :
  (gcpAuthConfigureWriteCall d meta r = (path, (None, r')) →
   gcpAuthConfigureWrite d meta r
   = gcpAuthConfigureRead (SetId (as_string (Get gcpAuthConfigSchema "path" d)) d)
       meta r')
  ∧ (authBackendWriteCall d meta r = (path, (None, r')) →
     authBackendWrite d meta r = authBackendRead (SetId path d) meta r').
Proof.
  split.
  - unfold gcpAuthConfigureWriteCall, gcpAuthConfigureWrite. cbn zeta.
    change (Id (SetId ?i ?x)) with i. intros [= <- Hw]. by rewrite Hw.
  - unfold authBackendWriteCall, authBackendWrite. cbn zeta.
    intros [= <- Hw]. by rewrite Hw.
Qed.

(** ** More on trimming and on the built path *)

Lemma TrimRight_fixed (s : string) (c : ascii) :
  strings.last_byte s ≠ Some c → strings.TrimRight s c = s.
Proof.
  induction s as [|a s IH]; [done |].
  destruct s as [|b t].
  - simpl. intros Ha. destruct (Ascii.eqb_spec a c) as [->|_]; [done | done].
  - intros Hl. change (strings.last_byte (String a (String b t)))
      with (strings.last_byte (String b t)) in Hl.
    change (strings.TrimRight (String a (String b t)) c)
      with (match strings.TrimRight (String b t) c with
            | EmptyString => if Ascii.eqb a c then EmptyString else String a EmptyString
            | u => String a u
            end).
    by rewrite (IH Hl).
Qed.

Lemma TrimLeft_fixed (s : string) (c : ascii) :
  strings.first_byte s ≠ Some c → strings.TrimLeft s c = s.
Proof.
  destruct s as [|a s]; [done |]. simpl. intros Ha.
  destruct (Ascii.eqb_spec a c) as [->|_]; [done | done].
Qed.

Lemma Trim_fixed (s : string) (c : ascii) :
  strings.first_byte s ≠ Some c → strings.last_byte s ≠ Some c →
  strings.Trim s c = s.
Proof.
  intros Hf Hl. unfold strings.Trim. rewrite (TrimRight_fixed s c Hl).
  by apply TrimLeft_fixed.
Qed.

Lemma Trim_idempotent (s : string) (c : ascii) :
  strings.Trim (strings.Trim s c) c = strings.Trim s c.
Proof.
  apply Trim_fixed; unfold strings.Trim.
  - apply first_byte_TrimLeft.
  - apply last_byte_TrimLeft, last_byte_TrimRight.
Qed.

Lemma Trim_cons_cut (s : string) (c : ascii) :
  strings.Trim (String c s) c = strings.Trim s c.
Proof.
  unfold strings.Trim. simpl.
  destruct (strings.TrimRight s c) as [|b t]; simpl; by rewrite Ascii.eqb_refl.
Qed.

Lemma length_append (s t : string) :
  String.length (s ++ t) = (String.length s + String.length t)%nat.
Proof.
  induction s as [|a s IH]; [done |]. rewrite append_cons. simpl. by rewrite IH.
Qed.

Lemma append_inj_l (s s' t : string) : s ++ t = s' ++ t → s = s'.
Proof.
  revert s'. induction s as [|a s IH]; intros [|a' s'] Heq; [done | | |].
  - apply (f_equal String.length) in Heq. rewrite append_empty_l, append_cons in Heq.
    simpl in Heq. rewrite length_append in Heq. lia.
  - apply (f_equal String.length) in Heq. rewrite append_empty_l, append_cons in Heq.
    simpl in Heq. rewrite length_append in Heq. lia.
  - rewrite !append_cons in Heq. injection Heq as -> Heq. f_equal. by apply IH.
Qed.

Lemma append_neq_self (s t : string) : t ≠ "" → s ++ t ≠ s.
Proof.
  intros Ht Heq. apply (f_equal String.length) in Heq.
  rewrite length_append in Heq. destruct t; [done |]. simpl in Heq. lia.
Qed.

(** X7. Two paths build the same remote address exactly when they agree
    once trimmed, so the built address does not see separators in front of
    the path or behind it, nor the normalization the [path] field applies to
    its state, which is idempotent. *)
Theorem gcpAuthBackendConfigPath_eq_iff (p q : string) :
  (gcpAuthBackendConfigPath p = gcpAuthBackendConfigPath q
   ↔ gcpAuthConfigPathState (VString p) = gcpAuthConfigPathState (VString q))
  ∧ gcpAuthBackendConfigPath ("/" ++ p) = gcpAuthBackendConfigPath p
  ∧ gcpAuthBackendConfigPath (gcpAuthConfigPathState (VString p))
    = gcpAuthBackendConfigPath p
  ∧ gcpAuthConfigPathState (VString (gcpAuthConfigPathState (VString p)))
    = gcpAuthConfigPathState (VString p).
Proof.
  unfold gcpAuthBackendConfigPath, gcpAuthConfigPathState. simpl.
  split; [split |].
  - intros Heq. apply (inj (String.append "auth/")) in Heq.
    by apply append_inj_l in Heq.
  - by intros ->.
  - change ("/" ++ p) with (String slash p).
    by rewrite Trim_cons_cut, !Trim_idempotent.
Qed.

(** ** More on the path field of the auth backend *)

Lemma first_byte_rev_app (s acc : string) :
  strings.first_byte (String.rev_app s acc)
  = match strings.last_byte s with
    | Some c => Some c
    | None => strings.first_byte acc
    end.
Proof.
  revert acc. induction s as [|a s IH]; intros acc; [done |].
  simpl. rewrite IH. destruct s as [|b t]; [done |].
  destruct (strings.last_byte (String b t)) eqn:Hl; [done |].
  exfalso. clear IH. revert b Hl. induction t as [|c t IHt]; intros b Hl; [done |].
  by apply (IHt c).
Qed.

Lemma HasSuffix_separator_iff (s : string) :
  strings.HasSuffix s "/" = true ↔ strings.last_byte s = Some slash.
Proof.
  unfold strings.HasSuffix, String.rev.
  pose proof (first_byte_rev_app s "") as Hf.
  change (String.rev_app "/" "") with "/".
  destruct (String.rev_app s "") as [|a t]; simpl in *.
  - destruct (strings.last_byte s); [discriminate | done].
  - replace (strings.HasPrefix t "") with true by (by destruct t).
    rewrite andb_true_r.
    destruct (strings.last_byte s) as [c|]; [| discriminate].
    injection Hf as ->. unfold slash.
    destruct (Ascii.eqb_spec c "/"%char) as [->|Hne]; [done |].
    split; [done |]. intros [= ->]. done.
Qed.

(** X3. The validator of [path] never warns, and it accepts a path, the
    empty one included, exactly when the path does not end with the
    separator; a path that does is refused with the one error "cannot write
    to a path ending in '/'". *)
Theorem authBackendPathValidate_accepts_iff (p k : string) :
  (authBackendPathValidate (VString p) k).1 = []
  ∧ ((authBackendPathValidate (VString p) k).2 = []
     ↔ strings.last_byte p ≠ Some slash)
  ∧ ((authBackendPathValidate (VString p) k).2
     = ["cannot write to a path ending in '/'"]
     ↔ strings.last_byte p = Some slash).
Proof.
  unfold authBackendPathValidate. simpl.
  pose proof (HasSuffix_separator_iff p) as Hs.
  destruct (strings.HasSuffix p "/"); simpl.
  - split; [done |]. split.
    + split; [discriminate |]. intros Hn. exfalso. apply Hn. by apply Hs.
    + split; [| done]. intros _. by apply Hs.
  - split; [done |]. split.
    + split; [| done]. intros _ Hl. apply Hs in Hl. discriminate.
    + split; [discriminate |]. intros Hl. apply Hs in Hl. discriminate.
Qed.

(** X2. The diff of [path] is suppressed between a path and the same path
    followed by one separator, whichever of the two is the old value: the
    suppression is symmetric. It is not suppressed between a path and itself,
    nor between a path and the path followed by two separators. *)
Theorem authBackendPathDiffSuppress_one_separator (k old new p : string)
    (d : ResourceData) :
  authBackendPathDiffSuppress k p (p ++ "/") d = true
  ∧ authBackendPathDiffSuppress k old new d = authBackendPathDiffSuppress k new old d
  ∧ authBackendPathDiffSuppress k p p d = false
  ∧ authBackendPathDiffSuppress k p (p ++ "//") d = false.
Proof.
  unfold authBackendPathDiffSuppress. split; [| split; [| split]].
  - by rewrite bool_decide_eq_true_2.
  - apply orb_comm.
  - rewrite bool_decide_eq_false_2; [done |]. by apply append_neq_self.
  - rewrite !bool_decide_eq_false_2; [done | |].
    + rewrite append_assoc. by apply append_neq_self.
    + intros Heq. apply (inj (String.append p)) in Heq. discriminate.
Qed.

(** X1. The path [authBackendRead] stores for the entry it finds is the key
    of the listing, the identity followed by the separator: the diff between
    the identity and the stored path is one the [path] field suppresses,
    while the stored path itself is one the validator of the field refuses. *)
Theorem authBackendRead_stored_path `{Quoter} {W : FieldWriter} {R : Type}
    (d : ResourceData) (meta : Client R) (r r' : R)
    (auths : gmap string AuthMount) (auth : AuthMount) :
  stores_typed_primitives W →
  Sys_ListAuth meta r = (inr auths, r') →
  auths !! (Id d ++ "/") = Some auth →
  ∃ d', authBackendRead d meta r = (None, d', r')
        ∧ Get authBackendSchema "path" d' = VString (Id d ++ "/")
        ∧ authBackendPathDiffSuppress "path" (Id d)
            (as_string (Get authBackendSchema "path" d')) d' = true
        ∧ (authBackendPathValidate (Get authBackendSchema "path" d') "path").2
          = ["cannot write to a path ending in '/'"].
Proof.
  intros HW Hl Ha. unfold authBackendRead. cbn zeta.
  rewrite Hl, authBackendReadScan_lookup, Ha.
  cbn [fmap option_fmap option_map]. eexists. split; [reflexivity |].
  rewrite (authBackendReadEntry_attrs _ _ _ HW).
  assert (Get authBackendSchema "path"
            {| Id := Id d;
               attrs :=
                 <["accessor" := VString (mount_Accessor auth)]>
                 (<["local" := VBool (mount_Local auth)]>
                 (<["listing_visibility" :=
                      VString (out_ListingVisibility (mount_Config auth))]>
                 (<["max_lease_ttl_seconds" :=
                      VInt (out_MaxLeaseTTL (mount_Config auth))]>
                 (<["default_lease_ttl_seconds" :=
                      VInt (out_DefaultLeaseTTL (mount_Config auth))]>
                 (<["description" := VString (mount_Description auth)]>
                 (<["path" := VString (Id d ++ "/")]>
                 (<["type" := VString (mount_Type auth)]> (attrs d)))))))) |}
          = VString (Id d ++ "/")) as ->.
  { unfold Get. cbn [attrs].
    repeat (rewrite lookup_insert_ne by done). by rewrite lookup_insert_eq. }
  split; [reflexivity |]. split.
  - unfold authBackendPathDiffSuppress. simpl. by rewrite bool_decide_eq_true_2.
  - unfold authBackendPathValidate. simpl. by rewrite HasSuffix_separator.
Qed.

Lemma authBackendRead_stored_path_witness :
  ∃ d', authBackendRead (H := quote_ascii) (H0 := kind_writer)
          approle_created fake.client store_with_approle
        = (None, d', fake.log fake.ReqListAuth store_with_approle)
        ∧ Get authBackendSchema "path" d' = VString "approle/"
        ∧ authBackendPathDiffSuppress "path" "approle"
            (as_string (Get authBackendSchema "path" d')) d' = true
        ∧ (authBackendPathValidate (Get authBackendSchema "path" d') "path").2
          = ["cannot write to a path ending in '/'"].
Proof.
  exact (authBackendRead_stored_path (H := quote_ascii) (W := kind_writer)
           approle_created fake.client store_with_approle _ _ _
           kind_writer_stores_typed_primitives eq_refl eq_refl).
Defined.

(** ** What the assembled requests depend on *)

Lemma Get_agree (m : SchemaMap) (k : string) (d d' : ResourceData) :
  attrs d !! k = attrs d' !! k → Get m k d = Get m k d'.
Proof. intros Ha. unfold Get. by rewrite Ha. Qed.

(** X8. The options [authBackendWrite] sends depend on nine fields only,
    those it copies: two states that agree on them give the same options,
    whatever their identities and their other fields. What is set for
    [seal_wrap], [allowed_response_headers] or [path] changes nothing in the
    options. *)
Theorem authBackendOptions_frame `{Quoter} (d d' : ResourceData) :
  (∀ k, k ∈ authBackendWritten.*1 → attrs d !! k = attrs d' !! k) →
  authBackendOptions d = authBackendOptions d'.
Proof.
  intros Hag. unfold authBackendOptions.
  rewrite (Get_agree _ "type" d d') by (apply Hag; elem_of_list).
  rewrite (Get_agree _ "description" d d') by (apply Hag; elem_of_list).
  rewrite (Get_agree _ "default_lease_ttl_seconds" d d') by (apply Hag; elem_of_list).
  rewrite (Get_agree _ "max_lease_ttl_seconds" d d') by (apply Hag; elem_of_list).
  rewrite (Get_agree _ "audit_non_hmac_request_keys" d d') by (apply Hag; elem_of_list).
  rewrite (Get_agree _ "audit_non_hmac_response_keys" d d') by (apply Hag; elem_of_list).
  rewrite (Get_agree _ "listing_visibility" d d') by (apply Hag; elem_of_list).
  rewrite (Get_agree _ "passthrough_request_headers" d d') by (apply Hag; elem_of_list).
  rewrite (Get_agree _ "local" d d') by (apply Hag; elem_of_list).
  reflexivity.
Qed.

Lemma authBackendOptions_frame_witness :
  authBackendOptions (H := quote_ascii) approle_state
  = authBackendOptions (H := quote_ascii)
      {| Id := "approle";
         attrs := <["seal_wrap" := VBool true]>
                  (<["allowed_response_headers" := VList ["X-Custom"]]>
                  (<["path" := VString "approle"]> (attrs approle_state))) |}.
Proof.
  apply (authBackendOptions_frame (H := quote_ascii)).
  intros k Hk. simpl in Hk.
  repeat (apply elem_of_cons in Hk as [->|Hk]; [reflexivity |]).
  by apply elem_of_nil in Hk.
Defined.

Lemma copy_if_set_agree (k : string) (d d' : ResourceData) (data : gmap string value) :
  attrs d !! k = attrs d' !! k → copy_if_set k d data = copy_if_set k d' data.
Proof.
  intros Ha. unfold copy_if_set, GetOk.
  by rewrite (Get_agree gcpAuthConfigSchema k d d' Ha).
Qed.

Lemma copy_metadata_agree (k flag : string) (d d' : ResourceData)
    (data : gmap string value) :
  attrs d !! k = attrs d' !! k → attrs d !! flag = attrs d' !! flag →
  copy_metadata k flag d data = copy_metadata k flag d' data.
Proof.
  intros Hk Hf. unfold copy_metadata.
  by rewrite (Get_agree gcpAuthConfigSchema k d d' Hk),
    (Get_agree gcpAuthConfigSchema flag d d' Hf).
Qed.

Lemma gcpAuthConfigureData_keys (d : ResourceData) (k : string) :
  is_Some (gcpAuthConfigureData d !! k) → k ∈ gcpAuthConfigPayloadKeys.
Proof.
  intros Hs. destruct (decide (k ∈ gcpAuthConfigPayloadKeys)) as [|Hn]; [done |].
  exfalso. unfold gcpAuthConfigureData in Hs.
  rewrite !copy_metadata_lookup_ne, !copy_if_set_lookup_ne, lookup_empty in Hs;
    try (intros <-; apply Hn; unfold gcpAuthConfigPayloadKeys; elem_of_list).
  by destruct Hs.
Qed.

(** X9. The payload of the GCP auth configuration has no entry beyond
    [credentials], [iam_alias], [gce_alias], [iam_metadata] and
    [gce_metadata], whatever is set, and it depends on seven fields only,
    these five and the two default flags: two states that agree on them give
    the same payload, whatever their identities, their [path] and their
    computed fields. *)
Theorem gcpAuthConfigureData_frame (d d' : ResourceData) :
  (∀ k, is_Some (gcpAuthConfigureData d !! k) → k ∈ gcpAuthConfigPayloadKeys)
  ∧ ((∀ k, k ∈ gcpAuthConfigWriteKeys → attrs d !! k = attrs d' !! k) →
     gcpAuthConfigureData d = gcpAuthConfigureData d').
Proof.
  split; [apply gcpAuthConfigureData_keys |].
  intros Hag. unfold gcpAuthConfigureData.
  rewrite (copy_if_set_agree "credentials" d d')
    by (apply Hag; unfold gcpAuthConfigWriteKeys; elem_of_list).
  rewrite (copy_if_set_agree "iam_alias" d d')
    by (apply Hag; unfold gcpAuthConfigWriteKeys; elem_of_list).
  rewrite (copy_if_set_agree "gce_alias" d d')
    by (apply Hag; unfold gcpAuthConfigWriteKeys; elem_of_list).
  rewrite (copy_metadata_agree "iam_metadata" "default_iam_metadata" d d')
    by (apply Hag; unfold gcpAuthConfigWriteKeys; elem_of_list).
  rewrite (copy_metadata_agree "gce_metadata" "default_gce_metadata" d d')
    by (apply Hag; unfold gcpAuthConfigWriteKeys; elem_of_list).
  reflexivity.
Qed.

Lemma gcpAuthConfigureData_frame_witness :
  gcpAuthConfigureData gcp_state
  = gcpAuthConfigureData
      {| Id := "gcp";
         attrs := <["path" := VString "elsewhere"]>
                  (<["client_email" := VString "a@b"]> (attrs gcp_state)) |}.
Proof.
  apply (proj2 (gcpAuthConfigureData_frame gcp_state _)).
  intros k Hk. unfold gcpAuthConfigWriteKeys in Hk.
  repeat (apply elem_of_cons in Hk as [->|Hk]; [reflexivity |]).
  by apply elem_of_nil in Hk.
Defined.

Lemma copy_if_set_lookup (k : string) (d : ResourceData) (data : gmap string value) :
  copy_if_set k d data !! k
  = if (GetOk gcpAuthConfigSchema k d).2
    then Some (VString (as_string (Get gcpAuthConfigSchema k d)))
    else data !! k.
Proof.
  unfold copy_if_set, GetOk. simpl.
  destruct (negb (is_zero (Get gcpAuthConfigSchema k d))); [| done].
  by rewrite lookup_insert_eq.
Qed.

(** X10. When the state holds strings for the string fields, as the
    framework sees to, a string field has an entry in the payload only as
    the string it is set to, and that string is not empty: a field that is
    set to the empty string is not sent, so it cannot clear the remote
    value. *)
Theorem gcpAuthConfigureData_no_empty_string (d : ResourceData) (k : string)
    (v : value) :
  k ∈ ["credentials"; "iam_alias"; "gce_alias"] →
  (∀ w, attrs d !! k = Some w → has_type TypeString w = true) →
  gcpAuthConfigureData d !! k = Some v →
  ∃ s, v = VString s ∧ s ≠ "" ∧ attrs d !! k = Some (VString s).
Proof.
  intros Hin Hty Hv.
  assert ((if (GetOk gcpAuthConfigSchema k d).2
           then Some (VString (as_string (Get gcpAuthConfigSchema k d)))
           else None) = Some v) as Hc.
  { unfold gcpAuthConfigureData in Hv.
    repeat (apply elem_of_cons in Hin as [->|Hin]);
      [ | | | by apply elem_of_nil in Hin ];
      rewrite !copy_metadata_lookup_ne in Hv by done;
      rewrite ?copy_if_set_lookup_ne in Hv by done;
      rewrite copy_if_set_lookup in Hv;
      rewrite ?copy_if_set_lookup_ne in Hv by done;
      rewrite ?lookup_empty in Hv; exact Hv. }
  unfold GetOk, Get in Hc. simpl in Hc.
  destruct (attrs d !! k) as [w|] eqn:Hk.
  - specialize (Hty w eq_refl). destruct w as [s| | |]; try discriminate.
    simpl in Hc. destruct (decide (s = "")) as [->|Hne].
    + rewrite bool_decide_eq_true_2 in Hc by done. discriminate.
    + rewrite bool_decide_eq_false_2 in Hc by done. injection Hc as <-.
      by exists s.
  - exfalso.
    repeat (apply elem_of_cons in Hin as [->|Hin]);
      [ | | | by apply elem_of_nil in Hin ]; discriminate Hc.
Qed.

Lemma gcpAuthConfigureData_no_empty_string_witness :
  ∃ s, VString "alias" = VString s ∧ s ≠ ""
       ∧ attrs {| Id := ""; attrs := {[ "iam_alias" := VString "alias" ]} |}
           !! "iam_alias" = Some (VString s).
Proof.
  apply (gcpAuthConfigureData_no_empty_string
           {| Id := ""; attrs := {[ "iam_alias" := VString "alias" ]} |} "iam_alias").
  - elem_of_list.
  - intros w [= <-]. reflexivity.
  - reflexivity.
Defined.

(** ** What the read of the GCP auth configuration copies *)

Lemma gcpAuthConfigureReadKeys_Id `{Quoter} `{FieldWriter} (path : string)
    (keys : list string) (data : gmap string value) (d : ResourceData) :
  Id (gcpAuthConfigureReadKeys path keys data d).2 = Id d.
Proof.
  revert d. induction keys as [|k keys IH]; intros d; [done |].
  cbn [gcpAuthConfigureReadKeys].
  destruct (data !! k) as [v|]; [| apply IH].
  pose proof (d_Set_Id gcpAuthConfigSchema k v d) as Hi.
  destruct (d_Set gcpAuthConfigSchema k v d) as [[e|] d1]; simpl in *; [done |].
  by rewrite IH.
Qed.

Lemma gcpAuthConfigureReadKeys_other `{Quoter} `{FieldWriter} (path : string)
    (keys : list string) (data : gmap string value) (d : ResourceData) (k : string) :
  k ∉ keys →
  attrs (gcpAuthConfigureReadKeys path keys data d).2 !! k = attrs d !! k.
Proof.
  revert d. induction keys as [|k' keys IH]; intros d Hk; [done |].
  apply not_elem_of_cons in Hk as [Hne Hk].
  cbn [gcpAuthConfigureReadKeys].
  destruct (data !! k') as [v|]; [| by apply IH].
  pose proof (d_Set_other gcpAuthConfigSchema k' k v d (not_eq_sym Hne)) as Ha.
  destruct (d_Set gcpAuthConfigSchema k' v d) as [[e|] d1]; simpl in *; [done |].
  by rewrite IH.
Qed.

(** X11. Whatever the store answers, [gcpAuthConfigureRead] leaves alone
    every attribute that is not in its list of nine keys, also when the
    response carries a value for it: a read never changes [path],
    [default_iam_metadata] or [default_gce_metadata]. *)
Theorem gcpAuthConfigureRead_other_attributes `{Quoter} `{FieldWriter} {R : Type}
    (d : ResourceData) (meta : Client R) (r : R) (k : string) :
  k ∉ gcpAuthConfigReadKeys →
  attrs (gcpAuthConfigureRead d meta r).1.2 !! k = attrs d !! k.
Proof.
  intros Hk. unfold gcpAuthConfigureRead. cbn zeta.
  destruct (Logical_Read meta _ r) as [[e|[resp|]] r']; [done | | done].
  pose proof (gcpAuthConfigureReadKeys_other
                (gcpAuthBackendConfigPath (Id d)) gcpAuthConfigReadKeys
                (Data resp) d k Hk) as Ho.
  by destruct (gcpAuthConfigureReadKeys _ _ _ _).
Qed.

Lemma gcpAuthConfigureRead_other_attributes_witness :
  attrs (gcpAuthConfigureRead (H := quote_ascii) (H0 := kind_writer) gcp_written
           fake.client
           {| fake.sealed := false;
              fake.objects :=
                {[ "auth/gcp/config" :=
                     <["path" := VString "other"]>
                     (<["client_id" := VString "42"]> ∅) ]};
              fake.mounts := ∅; fake.requests := [] |}).1.2 !! "path"
  = Some (VString "gcp").
Proof.
  apply (gcpAuthConfigureRead_other_attributes (H := quote_ascii) (H0 := kind_writer)
           gcp_written fake.client _ "path").
  unfold gcpAuthConfigReadKeys. intros Hin.
  repeat (apply elem_of_cons in Hin as [Hin|Hin]; [discriminate Hin |]).
  by apply elem_of_nil in Hin.
Defined.

(** X12. When the loop of [gcpAuthConfigureRead] over keys without repeats
    ends without an error, every key of the loop that the response has holds
    what the field writer made of the response's value. *)
Theorem gcpAuthConfigureReadKeys_copies `{Quoter} `{FieldWriter} (path : string)
    (keys : list string) (data : gmap string value) (d d' : ResourceData)
    (k : string) (v : value) :
  NoDup keys →
  gcpAuthConfigureReadKeys path keys data d = (None, d') →
  k ∈ keys → data !! k = Some v →
  ∃ s v', schema_lookup gcpAuthConfigSchema k = Some s
          ∧ write_field (Type_ s) v = inr v'
          ∧ attrs d' !! k = Some v'.
Proof.
  revert d. induction keys as [|k' keys IH]; intros d Hnd Hrun Hin Hv;
    [by apply elem_of_nil in Hin |].
  apply NoDup_cons in Hnd as [Hfresh Hnd].
  cbn [gcpAuthConfigureReadKeys] in Hrun.
  apply elem_of_cons in Hin as [->|Hin].
  - rewrite Hv in Hrun. unfold d_Set in Hrun.
    destruct (schema_lookup gcpAuthConfigSchema k') as [s|]; [| discriminate].
    destruct (write_field (Type_ s) v) as [e|v'] eqn:Hw; [discriminate |].
    exists s, v'. split; [done |]. split; [done |].
    pose proof (gcpAuthConfigureReadKeys_other path keys data
                  {| Id := Id d; attrs := <[k' := v']> (attrs d) |} k' Hfresh) as Ho.
    rewrite Hrun in Ho. simpl in Ho. by rewrite Ho, lookup_insert_eq.
  - destruct (data !! k') as [w|]; [| by apply (IH d)].
    destruct (d_Set gcpAuthConfigSchema k' w d) as [[e|] d1]; [discriminate |].
    by apply (IH d1).
Qed.

Lemma gcpAuthConfigureReadKeys_copies_witness :
  ∃ s v', schema_lookup gcpAuthConfigSchema "client_id" = Some s
          ∧ write_field (FieldWriter := kind_writer) (Type_ s) (VString "42") = inr v'
          ∧ attrs {| Id := "gcp";
                     attrs := <["client_id" := VString "42"]> (attrs gcp_written) |}
              !! "client_id" = Some v'.
Proof.
  apply (gcpAuthConfigureReadKeys_copies (H := quote_ascii) (H0 := kind_writer)
           "auth/gcp/config" gcpAuthConfigReadKeys
           {[ "client_id" := VString "42" ]} gcp_written).
  - unfold gcpAuthConfigReadKeys.
    repeat (apply NoDup_cons; split;
            [ intros Hin;
              repeat (apply elem_of_cons in Hin as [Hin|Hin]; [discriminate Hin |]);
              by apply elem_of_nil in Hin | ]).
    apply NoDup_nil_2.
  - vm_compute. reflexivity.
  - unfold gcpAuthConfigReadKeys. elem_of_list.
  - reflexivity.
Defined.

(** X13. When the loop of [gcpAuthConfigureRead] ends with an error, the
    error is that of the first key, in the order of the loop, whose value the
    field writer refuses; it names that key and the path; and the attributes
    are those the loop had written for the keys before it, which stay
    written. *)
Theorem gcpAuthConfigureReadKeys_error `{Quoter} `{FieldWriter} (path : string)
    (keys : list string) (data : gmap string value) (d d' : ResourceData)
    (msg : string) :
  gcpAuthConfigureReadKeys path keys data d = (Some msg, d') →
  ∃ before k after v e,
    keys = (before ++ k :: after)%list
    ∧ data !! k = Some v
    ∧ gcpAuthConfigureReadKeys path before data d = (None, d')
    ∧ d_Set gcpAuthConfigSchema k v d' = (Some e, d')
    ∧ msg = "error setting " ++ k ++ " for GCP Auth config " ++ quote path
            ++ ": " ++ quote e.
Proof.
  revert d. induction keys as [|k keys IH]; intros d Hrun; [discriminate |].
  cbn [gcpAuthConfigureReadKeys] in Hrun.
  destruct (data !! k) as [v|] eqn:Hv.
  - destruct (d_Set gcpAuthConfigSchema k v d) as [[e|] d1] eqn:Hs.
    + injection Hrun as <- <-. exists [], k, keys, v, e.
      assert (d1 = d) as ->.
      { unfold d_Set in Hs.
        destruct (schema_lookup gcpAuthConfigSchema k) as [s|];
          [| by injection Hs].
        destruct (write_field (Type_ s) v); [by injection Hs | discriminate]. }
      repeat split; try done.
      unfold Errorf. cbn [Sprintf format_verb]. simpl.
      by rewrite append_empty_r.
    + destruct (IH d1 Hrun) as (before & k0 & after & v0 & e0 & -> & Hk0 & Hb & Hf & ->).
      exists (k :: before), k0, after, v0, e0.
      repeat split; try done.
      cbn [gcpAuthConfigureReadKeys]. by rewrite Hv, Hs.
  - destruct (IH d Hrun) as (before & k0 & after & v0 & e0 & -> & Hk0 & Hb & Hf & ->).
    exists (k :: before), k0, after, v0, e0.
    repeat split; try done.
    cbn [gcpAuthConfigureReadKeys]. by rewrite Hv.
Qed.

Lemma gcpAuthConfigureReadKeys_error_witness :
  ∃ before k after v e,
    gcpAuthConfigReadKeys = (before ++ k :: after)%list
    ∧ ({[ "iam_alias" := VString "a"; "iam_metadata" := VString "default" ]}
         : gmap string value) !! k = Some v
    ∧ gcpAuthConfigureReadKeys (H := quote_ascii) (H0 := kind_writer)
        "auth/gcp/config" before
        {[ "iam_alias" := VString "a"; "iam_metadata" := VString "default" ]}
        gcp_written
      = (None, {| Id := "gcp";
                  attrs := <["iam_alias" := VString "a"]> (attrs gcp_written) |})
    ∧ d_Set (H := kind_writer) gcpAuthConfigSchema k v
        {| Id := "gcp"; attrs := <["iam_alias" := VString "a"]> (attrs gcp_written) |}
      = (Some e, {| Id := "gcp";
                    attrs := <["iam_alias" := VString "a"]> (attrs gcp_written) |})
    ∧ "error setting iam_metadata for GCP Auth config " ++ quoted "auth/gcp/config"
      ++ ": " ++ quoted "value of the wrong type"
      = "error setting " ++ k ++ " for GCP Auth config "
        ++ quote (Quoter := quote_ascii) "auth/gcp/config" ++ ": "
        ++ quote (Quoter := quote_ascii) e.
Proof.
  apply (gcpAuthConfigureReadKeys_error (H := quote_ascii) (H0 := kind_writer)
           "auth/gcp/config" gcpAuthConfigReadKeys
           {[ "iam_alias" := VString "a"; "iam_metadata" := VString "default" ]}
           gcp_written).
  vm_compute. reflexivity.
Defined.

(** ** The identity after an operation *)

Lemma authBackendReadEntry_Id `{FieldWriter} (path : string) (auth : AuthMount)
    (d : ResourceData) :
  Id (authBackendReadEntry path auth d) = Id d.
Proof. unfold authBackendReadEntry. by rewrite !d_Set_Id. Qed.

Lemma authBackendReadScan_Id `{FieldWriter} (targetPath : string)
    (auths : list (string * AuthMount)) (d d' : ResourceData) :
  authBackendReadScan targetPath auths d = Some d' → Id d' = Id d.
Proof.
  induction auths as [|[path auth] auths IH]; [done |]. simpl.
  destruct (bool_decide (path = targetPath)); [| exact IH].
  intros [= <-]. apply authBackendReadEntry_Id.
Qed.

Lemma gcpAuthConfigureRead_identity {R} `{Quoter} `{FieldWriter}
    (d : ResourceData) (meta : Client R) (r : R) :
  Id (gcpAuthConfigureRead d meta r).1.2 = Id d
  ∨ (Id (gcpAuthConfigureRead d meta r).1.2 = ""
     ∧ (gcpAuthConfigureRead d meta r).1.1 = None
     ∧ attrs (gcpAuthConfigureRead d meta r).1.2 = attrs d).
Proof.
  unfold gcpAuthConfigureRead. cbn zeta.
  destruct (Logical_Read meta _ r) as [[e|[resp|]] r']; [by left | | by right].
  left.
  pose proof (gcpAuthConfigureReadKeys_Id (gcpAuthBackendConfigPath (Id d))
                gcpAuthConfigReadKeys (Data resp) d) as Hi.
  by destruct (gcpAuthConfigureReadKeys _ _ _ _).
Qed.

Lemma authBackendRead_identity {R} `{Quoter} `{FieldWriter}
    (d : ResourceData) (meta : Client R) (r : R) :
  Id (authBackendRead d meta r).1.2 = Id d
  ∨ (Id (authBackendRead d meta r).1.2 = ""
     ∧ (authBackendRead d meta r).1.1 = None
     ∧ attrs (authBackendRead d meta r).1.2 = attrs d).
Proof.
  unfold authBackendRead. cbn zeta.
  destruct (Sys_ListAuth meta r) as [[e|auths] r']; [by left |].
  destruct (authBackendReadScan _ _ d) as [d'|] eqn:Hs; [| by right].
  left. simpl. by apply authBackendReadScan_Id in Hs.
Qed.

(** X14. No operation invents an identity. After a read the identity is the
    one before, or it is empty, and then the read returned no error and left
    the attributes alone. After [gcpAuthConfigureWrite] the identity is the
    [path] field or empty, never the identity before; after
    [authBackendWrite] it is the identity before, the mount path or empty. *)
Theorem identity_after_operation `{Quoter} `{FieldWriter} {R : Type}
    (d : ResourceData) (meta : Client R) (r : R) :
  (Id (gcpAuthConfigureRead d meta r).1.2 = Id d
   ∨ (Id (gcpAuthConfigureRead d meta r).1.2 = ""
      ∧ (gcpAuthConfigureRead d meta r).1.1 = None
      ∧ attrs (gcpAuthConfigureRead d meta r).1.2 = attrs d))
  ∧ (Id (authBackendRead d meta r).1.2 = Id d
     ∨ (Id (authBackendRead d meta r).1.2 = ""
        ∧ (authBackendRead d meta r).1.1 = None
        ∧ attrs (authBackendRead d meta r).1.2 = attrs d))
  ∧ (Id (gcpAuthConfigureWrite d meta r).1.2
     = as_string (Get gcpAuthConfigSchema "path" d)
     ∨ Id (gcpAuthConfigureWrite d meta r).1.2 = "")
  ∧ (Id (authBackendWrite d meta r).1.2 = Id d
     ∨ Id (authBackendWrite d meta r).1.2 = authBackendMountPath d
     ∨ Id (authBackendWrite d meta r).1.2 = "").
Proof.
  split; [apply gcpAuthConfigureRead_identity |].
  split; [apply authBackendRead_identity |]. split.
  - unfold gcpAuthConfigureWrite. cbn zeta.
    destruct (Logical_Write meta _ _ r) as [[e|] r']; [by right |].
    destruct (gcpAuthConfigureRead_identity
                (SetId (as_string (Get gcpAuthConfigSchema "path" d)) d) meta r')
      as [Hi|(Hi & _)]; [left | right]; exact Hi.
  - unfold authBackendWrite. cbn zeta.
    destruct (Sys_EnableAuthWithOptions meta _ _ r) as [[e|] r']; [by left |].
    destruct (authBackendRead_identity (SetId (authBackendMountPath d) d) meta r')
      as [Hi|(Hi & _)]; [right; left | right; right]; exact Hi.
Qed.

(** ** The listing in any order *)

(** X15. The loop of [authBackendRead] gives the same result in whatever
    order a listing without two equal keys is ranged over. *)
Theorem authBackendReadScan_any_order `{FieldWriter} (targetPath : string)
    (auths auths' : list (string * AuthMount)) (d : ResourceData) :
  NoDup (auths.*1) → auths ≡ₚ auths' →
  authBackendReadScan targetPath auths d = authBackendReadScan targetPath auths' d.
Proof.
  intros Hnd Hp.
  assert (NoDup (auths'.*1)) as Hnd' by (by rewrite <- Hp).
  destruct (decide (targetPath ∈ auths.*1)) as [Hin|Hnin].
  - apply list_elem_of_fmap in Hin as ([path auth] & -> & Hin). simpl.
    rewrite (authBackendReadScan_Some path auths auth d Hnd Hin).
    symmetry. apply authBackendReadScan_Some; [done |]. by rewrite <- Hp.
  - rewrite !authBackendReadScan_None; [done | |].
    + intros auth Hin. apply Hnin. rewrite Hp. apply list_elem_of_fmap.
      by exists (targetPath, auth).
    + intros auth Hin. apply Hnin. apply list_elem_of_fmap.
      by exists (targetPath, auth).
Qed.

Lemma authBackendReadScan_any_order_witness :
  authBackendReadScan (H := kind_writer) "approle/"
    [ ("approle/", mkAuthMount "approle" "" "a1" (mkAuthConfigOutput 3600 0 "") false);
      ("token/", mkAuthMount "token" "" "a2" (mkAuthConfigOutput 0 0 "") false) ]
    approle_created
  = authBackendReadScan (H := kind_writer) "approle/"
      [ ("token/", mkAuthMount "token" "" "a2" (mkAuthConfigOutput 0 0 "") false);
        ("approle/", mkAuthMount "approle" "" "a1" (mkAuthConfigOutput 3600 0 "") false) ]
      approle_created.
Proof.
  apply (authBackendReadScan_any_order (H := kind_writer)).
  - simpl. apply NoDup_cons. split.
    + intros Hin. apply elem_of_cons in Hin as [Hin|Hin]; [discriminate Hin |].
      by apply elem_of_nil in Hin.
    + apply NoDup_singleton.
  - apply perm_swap.
Defined.

(** ** The existence check and the read agree *)

(** X16. From the same store, [gcpAuthConfigureExists] and
    [gcpAuthConfigureRead] agree: when the check answers false, it reports no
    error and the read empties the identity without an error; when it
    answers true without an error, the read keeps the identity; when it
    answers true with an error, the read fails and leaves the data as it
    was. Both leave the store in the same state. *)
Theorem gcpAuthConfigureExists_agrees_with_Read `{Quoter} `{FieldWriter} {R : Type}
    (d : ResourceData) (meta : Client R) (r : R) :
  match gcpAuthConfigureExists d meta r with
  | (false, err, r') =>
      err = None ∧ gcpAuthConfigureRead d meta r = (None, SetId "" d, r')
  | (true, None, r') =>
      (gcpAuthConfigureRead d meta r).2 = r'
      ∧ Id (gcpAuthConfigureRead d meta r).1.2 = Id d
  | (true, Some _, r') =>
      ∃ msg, gcpAuthConfigureRead d meta r = (Some msg, d, r')
  end.
Proof.
  unfold gcpAuthConfigureExists, gcpAuthConfigureRead. cbn zeta.
  destruct (Logical_Read meta _ r) as [[e|[resp|]] r'].
  - cbv beta iota. by eexists.
  - rewrite bool_decide_eq_true_2 by done. cbv beta iota.
    pose proof (gcpAuthConfigureReadKeys_Id (gcpAuthBackendConfigPath (Id d))
                  gcpAuthConfigReadKeys (Data resp) d) as Hi.
    by destruct (gcpAuthConfigureReadKeys _ _ _ _).
  - rewrite bool_decide_eq_false_2 by (intros Hn; by apply Hn). cbv beta iota.
    done.
Qed.

(** ** The normal form of credentials *)

(** X17. With a JSON codec whose encoder writes texts that decode to the map
    encoded, the normalizer turns a text the validator accepts into a text
    the validator accepts; and two texts that decode to the same map, which
    the encoder can write, have the same normal form, the text the encoder
    writes for the map. *)
Theorem credentials_normal_form {J : JSONCodec} :
  marshal_roundtrip J →
  (∀ x m k, Unmarshal x = inr m →
     ValidateGCPCredentials (VString (NormalizeGCPCredentials (VString x))) k
     = ([], []))
  ∧ (∀ x y m s, Unmarshal x = inr m → Unmarshal y = inr m → Marshal m = inr s →
       NormalizeGCPCredentials (VString x) = s
       ∧ NormalizeGCPCredentials (VString y) = s).
Proof.
  intros HJ. split.
  - intros x m k Hx. rewrite (NormalizeGCPCredentials_decoded x m Hx).
    unfold ValidateGCPCredentials. simpl.
    destruct (Marshal m) as [e|s] eqn:Hm.
    + by rewrite Hx.
    + by rewrite (HJ x m s Hx Hm).
  - intros x y m s Hx Hy Hm.
    by rewrite (NormalizeGCPCredentials_decoded x m Hx),
      (NormalizeGCPCredentials_decoded y m Hy), Hm.
Qed.

Lemma credentials_normal_form_witness :
  ValidateGCPCredentials (H := minijson.codec)
    (VString (NormalizeGCPCredentials (H := minijson.codec) (VString loose_credentials)))
    "credentials" = ([], [])
  ∧ NormalizeGCPCredentials (H := minijson.codec) (VString loose_credentials)
    = "{" ++ quoted "client_id" ++ ":" ++ quoted "42" ++ ","
      ++ quoted "project_id" ++ ":" ++ quoted "p1" ++ "}"
  ∧ NormalizeGCPCredentials (H := minijson.codec)
      (VString ("{" ++ quoted "project_id" ++ ":" ++ quoted "p1" ++ "  ,"
                ++ quoted "client_id" ++ ":" ++ quoted "42" ++ "}"))
    = "{" ++ quoted "client_id" ++ ":" ++ quoted "42" ++ ","
      ++ quoted "project_id" ++ ":" ++ quoted "p1" ++ "}".
Proof.
  destruct (credentials_normal_form (J := minijson.codec) minijson_marshal_roundtrip)
    as [Hv Hn].
  split.
  - apply (Hv loose_credentials
             (<["client_id" := "42"]> (<["project_id" := "p1"]> ∅))).
    vm_compute. reflexivity.
  - apply (Hn loose_credentials _
             (<["client_id" := "42"]> (<["project_id" := "p1"]> ∅)));
      vm_compute; reflexivity.
Defined.

(** ** An identity with a trailing separator *)

Lemma d_Set_attrs_agree `{FieldWriter} (m : SchemaMap) (k : string) (v : value)
    (d d2 : ResourceData) :
  attrs d = attrs d2 →
  (d_Set m k v d).1 = (d_Set m k v d2).1
  ∧ attrs (d_Set m k v d).2 = attrs (d_Set m k v d2).2.
Proof.
  intros Ha. unfold d_Set. destruct (schema_lookup m k) as [s|]; [| done].
  destruct (write_field (Type_ s) v); [done |]. simpl. by rewrite Ha.
Qed.

Lemma gcpAuthConfigureReadKeys_attrs_agree `{Quoter} `{FieldWriter} (path : string)
    (keys : list string) (data : gmap string value) (d d2 : ResourceData) :
  attrs d = attrs d2 →
  (gcpAuthConfigureReadKeys path keys data d).1
  = (gcpAuthConfigureReadKeys path keys data d2).1
  ∧ attrs (gcpAuthConfigureReadKeys path keys data d).2
    = attrs (gcpAuthConfigureReadKeys path keys data d2).2.
Proof.
  revert d d2. induction keys as [|k keys IH]; intros d d2 Ha; [done |].
  cbn [gcpAuthConfigureReadKeys].
  destruct (data !! k) as [v|]; [| by apply IH].
  destruct (d_Set_attrs_agree gcpAuthConfigSchema k v d d2 Ha) as [He Hat].
  destruct (d_Set gcpAuthConfigSchema k v d) as [[e|] d1],
    (d_Set gcpAuthConfigSchema k v d2) as [[e2|] d3]; simpl in *;
    try discriminate.
  - by injection He as ->.
  - by apply IH.
Qed.

(** X18. The operations of the GCP auth configuration address the same
    remote object for an identity and for the identity followed by the
    separator: the existence check and the delete return the same, and the
    read returns the same error, the same attributes and the same store. *)
Theorem gcpAuthConfig_identity_trailing_separator `{Quoter} `{FieldWriter} {R : Type}
    (d : ResourceData) (meta : Client R) (r : R) (p : string) :
  gcpAuthConfigureExists (SetId (p ++ "/") d) meta r
  = gcpAuthConfigureExists (SetId p d) meta r
  ∧ gcpAuthConfigureDelete (SetId (p ++ "/") d) meta r
    = gcpAuthConfigureDelete (SetId p d) meta r
  ∧ (gcpAuthConfigureRead (SetId (p ++ "/") d) meta r).1.1
    = (gcpAuthConfigureRead (SetId p d) meta r).1.1
  ∧ attrs (gcpAuthConfigureRead (SetId (p ++ "/") d) meta r).1.2
    = attrs (gcpAuthConfigureRead (SetId p d) meta r).1.2
  ∧ (gcpAuthConfigureRead (SetId (p ++ "/") d) meta r).2
    = (gcpAuthConfigureRead (SetId p d) meta r).2.
Proof.
  assert (gcpAuthBackendConfigPath (p ++ "/") = gcpAuthBackendConfigPath p) as Hp.
  { unfold gcpAuthBackendConfigPath.
    change (p ++ "/") with (p ++ String slash ""). by rewrite Trim_app_cut. }
  unfold gcpAuthConfigureExists, gcpAuthConfigureDelete, gcpAuthConfigureRead.
  cbn zeta. change (Id (SetId ?i ?x)) with i. rewrite Hp.
  split; [done |]. split; [done |].
  destruct (Logical_Read meta _ r) as [[e|[resp|]] r']; [done | | done].
  destruct (gcpAuthConfigureReadKeys_attrs_agree (gcpAuthBackendConfigPath p)
              gcpAuthConfigReadKeys (Data resp) (SetId (p ++ "/") d) (SetId p d)
              eq_refl) as [He Ha].
  by destruct (gcpAuthConfigureReadKeys _ _ _ (SetId (p ++ "/") d)),
    (gcpAuthConfigureReadKeys _ _ _ (SetId p d)).
Qed.

(** ** A write is as good as its read-back *)

(** X6. After a remote write that succeeded, the result of the write is that
    of the read-back. When the read-back fails, the write returns the error
    of the read while the identity stays set, to the [path] field or to the
    mount path; when the read-back finds nothing, the write returns no error
    and an empty identity. *)
Theorem write_read_back_outcomes `{Quoter} `{FieldWriter} {R : Type}
    (d : ResourceData) (meta : Client R) (r r1 r2 : R) (path : string) :
  (gcpAuthConfigureWriteCall d meta r = (path, (None, r1)) →
   (∀ cause, Logical_Read meta path r1 = (inl cause, r2) →
      gcpAuthConfigureWrite d meta r
      = (Some ("error reading GCP Auth config " ++ quote path ++ ": " ++ cause),
         SetId (as_string (Get gcpAuthConfigSchema "path" d)) d, r2))
   ∧ (Logical_Read meta path r1 = (inr None, r2) →
      gcpAuthConfigureWrite d meta r = (None, SetId "" d, r2)))
  ∧ (authBackendWriteCall d meta r = (path, (None, r1)) →
     (∀ cause, Sys_ListAuth meta r1 = (inl cause, r2) →
        authBackendWrite d meta r
        = (Some ("error reading from Vault: " ++ cause), SetId path d, r2))
     ∧ (∀ auths, Sys_ListAuth meta r1 = (inr auths, r2) →
          auths !! (path ++ "/") = None →
          authBackendWrite d meta r = (None, SetId "" d, r2))).
Proof.
  split.
  - intros Hw. rewrite (proj1 (write_then_read d meta r r1 path) Hw).
    assert (path = gcpAuthBackendConfigPath
                     (Id (SetId (as_string (Get gcpAuthConfigSchema "path" d)) d)))
      as Hp by (by injection Hw as <- _).
    split.
    + intros cause Hr. rewrite Hp in Hr.
      by rewrite (gcpAuthConfigureRead_failed _ meta r1 r2 cause Hr), <- Hp.
    + intros Hr. rewrite Hp in Hr. unfold gcpAuthConfigureRead. cbn zeta.
      by rewrite Hr.
  - intros Hw. rewrite (proj2 (write_then_read d meta r r1 path) Hw). split.
    + intros cause Hr. by apply authBackendRead_failed.
    + intros auths Hl Hn. unfold authBackendRead. cbn zeta.
      change (Id (SetId path d)) with path.
      by rewrite Hl, authBackendReadScan_lookup, Hn.
Qed.

Lemma write_read_back_outcomes_witness :
  gcpAuthConfigureWrite (H := quote_ascii) (H0 := kind_writer)
    gcp_state flaky.client 1%nat
  = (Some ("error reading GCP Auth config " ++ quoted "auth/gcp/config"
           ++ ": connection refused"), gcp_written, 0%nat)
  ∧ gcpAuthConfigureWrite (H := quote_ascii) (H0 := kind_writer)
      gcp_state flaky.client 2%nat
    = (None, SetId "" gcp_state, 0%nat)
  ∧ authBackendWrite (H := quote_ascii) (H0 := kind_writer)
      approle_state flaky.client 1%nat
    = (Some "error reading from Vault: connection refused", approle_created, 0%nat)
  ∧ authBackendWrite (H := quote_ascii) (H0 := kind_writer)
      approle_state flaky.client 2%nat
    = (None, SetId "" approle_state, 0%nat).
Proof.
  split; [| split; [| split]].
  - apply (proj1 (proj1 (write_read_back_outcomes (H := quote_ascii) (H0 := kind_writer)
                           gcp_state flaky.client 1%nat 0%nat 0%nat "auth/gcp/config")
                   eq_refl) "connection refused").
    reflexivity.
  - apply (proj2 (proj1 (write_read_back_outcomes (H := quote_ascii) (H0 := kind_writer)
                           gcp_state flaky.client 2%nat 1%nat 0%nat "auth/gcp/config")
                   eq_refl)).
    reflexivity.
  - apply (proj1 (proj2 (write_read_back_outcomes (H := quote_ascii) (H0 := kind_writer)
                           approle_state flaky.client 1%nat 0%nat 0%nat "approle")
                   eq_refl) "connection refused").
    reflexivity.
  - apply (proj2 (proj2 (write_read_back_outcomes (H := quote_ascii) (H0 := kind_writer)
                           approle_state flaky.client 2%nat 1%nat 0%nat "approle")
                   eq_refl) ∅); reflexivity.
Defined.
